(** * torch-ngp NeRF renderer: volumetric integration, importance resampling
      and occupancy-grid maintenance ([nerf/renderer.py])

    Float tensors are read as exact numbers.  The compositor needs [exp], so
    [run] and [render] are stated over the real numbers; [sample_pdf] and the
    occupancy-grid maintenance use only field operations and comparisons and
    are stated over the rationals, where they evaluate.  A tensor of shape
    [N, T] is a list of N rows of T entries; the leading batch dimension B of
    the ray tensors is 1, as the source assumes, and an entry of a result
    that has the shape [B, N, ...] of the ray tensors is given by its one
    batch row. *)

From Stdlib Require Import Reals Lra Lia List Bool Arith ZArith QArith Qminmax Qabs Qround.
From Stdlib Require Lqa.
Import ListNotations.

Set Implicit Arguments.

(** ** Rows, slices and elementwise operations *)

Definition vec3 (num : Type) : Type := (num * num * num)%type.

(** Elementwise binary operation on two rows of equal length. *)
Fixpoint map2 {A B C : Type} (f : A -> B -> C) (l : list A) (l' : list B) : list C :=
  match l, l' with
  | x :: t, y :: t' => f x y :: map2 f t t'
  | _, _ => []
  end.

(** [l[head:tail]] for [0 <= head]. *)
Definition slice {A : Type} (l : list A) (head tail : nat) : list A :=
  firstn (tail - head) (skipn head l).

(** [l[head:head+len(vals)] = vals]. *)
Definition write_slice {A : Type} (l : list A) (head : nat) (vals : list A) : list A :=
  firstn head l ++ vals ++ skipn (head + length vals) l.

(** ** The renderer object *)

Record NeRFRenderer (num : Type) : Type := mkRenderer {
  bound : num;
  cascade : Z;
  grid_size : nat;
  density_scale : num;
  min_near : num;
  density_thresh : num;
  bg_radius : num;
  aabb_train : vec3 num * vec3 num;   (* (xmin, ymin, zmin), (xmax, ymax, zmax) *)
  aabb_infer : vec3 num * vec3 num;
  training : bool;                    (* nn.Module.training *)
  cuda_ray : bool;
  (* extra state for cuda raymarching *)
  density_grid : list (list num);     (* [CAS, H * H * H] *)
  density_bitfield : list nat;        (* [CAS * H * H * H // 8] bytes *)
  mean_density : option num;         (* [None] is nan *)
  iter_density : nat;
  step_counter : list (Z * Z);        (* [16, 2] *)
  mean_count : Z;
  local_step : nat;
  clip_feat_dim : nat                 (* set by the concrete field *)
}.

(** The learned field, queried row by row: row i of a result depends on row i
    of the arguments only.  [density] returns (sigma, geo_feat). *)
Class Field (num feat : Type) : Type := {
  density : vec3 num -> num * feat;
  color : vec3 num -> vec3 num -> bool -> feat -> num -> vec3 num;
  clip : feat -> num -> list num
}.

(** The native [raymarching] kernels the renderer calls. *)
Class Raymarching (num : Type) : Type := {
  near_far_from_aabb : vec3 num -> vec3 num -> vec3 num * vec3 num -> num -> num * num;
  morton3D : nat * nat * nat -> nat;
  morton3D_invert : nat -> nat * nat * nat;
  packbits : list (list num) -> option num -> list nat -> list nat
}.

Inductive error : Type :=
| AssertionError
| RuntimeError
| IndexError
| ValueError
| ZeroDivisionError.

(** A field query, with the number of rows it was given. *)
Inductive query : Type :=
| QDensity (rows : nat)
| QColor (rows : nat)
| QClip (rows : nat).

(** ** The compositor ([NeRFRenderer.run]) *)

Section Run.
Local Open Scope R_scope.
Context {feat : Type} {F : Field R feat} {K : Raymarching R}.

Record Ray : Type := mkRay {
  rays_o : vec3 R;
  rays_d : vec3 R;
  direction_norms : R
}.

Definition vadd (a b : vec3 R) : vec3 R :=
  let '(a0, a1, a2) := a in let '(b0, b1, b2) := b in (a0 + b0, a1 + b1, a2 + b2).

Definition vscale (k : R) (a : vec3 R) : vec3 R :=
  let '(a0, a1, a2) := a in (k * a0, k * a1, k * a2).

Definition vmax (a b : vec3 R) : vec3 R :=
  let '(a0, a1, a2) := a in let '(b0, b1, b2) := b in (Rmax a0 b0, Rmax a1 b1, Rmax a2 b2).

Definition vmin (a b : vec3 R) : vec3 R :=
  let '(a0, a1, a2) := a in let '(b0, b1, b2) := b in (Rmin a0 b0, Rmin a1 b1, Rmin a2 b2).

Definition Rsum (l : list R) : R := fold_right Rplus 0 l.

Definition vsum (l : list (vec3 R)) : vec3 R := fold_right vadd (0, 0, 0) l.

(** Sum of rows of width [dim] along the sample axis. *)
Definition lsum (dim : nat) (l : list (list R)) : list R :=
  fold_right (map2 Rplus) (repeat 0 dim) l.

(** [torch.linspace(0.0, 1.0, steps)]. *)
Definition linspace01 (steps : nat) : list R :=
  map (fun i => INR i / INR (steps - 1)) (seq 0 steps).

(** [torch.cumprod(l, dim=-1)]. *)
Fixpoint cumprod_from (acc : R) (l : list R) : list R :=
  match l with
  | [] => []
  | x :: t => acc * x :: cumprod_from (acc * x) t
  end.

Definition cumprod (l : list R) : list R :=
  match l with
  | [] => []
  | x :: t => x :: cumprod_from x t
  end.

(** [z_vals = nears + (fars - nears) * linspace], one row. *)
Definition z_vals_row (near far : R) (num_steps : nat) : list R :=
  map (fun u => near + (far - near) * u) (linspace01 num_steps).

Definition sample_dist (near far : R) (num_steps : nat) : R :=
  (far - near) / INR num_steps.

(** [z_vals + (torch.rand(z_vals.shape) - 0.5) * sample_dist], one row;
    [rand i] is the draw for sample i. *)
Definition perturb_row (zs : list R) (rand : nat -> R) (sd : R) : list R :=
  map2 (fun z u => z + (u - 0.5) * sd) zs (map rand (seq 0 (length zs))).

(** [torch.min(torch.max(xyzs, aabb[:3]), aabb[3:])]. *)
Definition clip_to_aabb (aabb : vec3 R * vec3 R) (p : vec3 R) : vec3 R :=
  vmin (vmax p (fst aabb)) (snd aabb).

(** [deltas = z_vals[..., 1:] - z_vals[..., :-1]] followed by
    [sample_dist * torch.ones_like(deltas[..., :1])]. *)
Definition deltas_row (zs : list R) (sd : R) : list R :=
  let deltas := map2 Rminus (tl zs) (removelast zs) in
  deltas ++ map (fun _ => sd * 1) (firstn 1 deltas).

Definition alphas_row (ds : R) (deltas sigmas : list R) : list R :=
  map2 (fun dl s => 1 - exp (- dl * ds * s)) deltas sigmas.

(** [torch.cat([torch.ones_like(alphas[..., :1]), 1 - alphas + 1e-15])]. *)
Definition alphas_shifted (alphas : list R) : list R :=
  map (fun _ => 1) (firstn 1 alphas) ++ map (fun a => 1 - a + 1e-15) alphas.

(** The transmittance [torch.cumprod(alphas_shifted, dim=-1)[..., :-1]]. *)
Definition transmittance_row (alphas : list R) : list R :=
  removelast (cumprod (alphas_shifted alphas)).

(** [weights = alphas * torch.cumprod(alphas_shifted, dim=-1)[..., :-1]]. *)
Definition weights_row (alphas : list R) : list R :=
  map2 Rmult alphas (transmittance_row alphas).

(** [mask = weights > 1e-4]. *)
Definition mask_row (weights : list R) : list bool :=
  map (fun w => if Rlt_dec 1e-4 w then true else false) weights.

(** [weights[torch.logical_not(mask)] = 0.]. *)
Definition masked_row (weights : list R) (mask : list bool) : list R :=
  map2 (fun w (m : bool) => if m then w else 0) weights mask.

(** What [run] computes for one ray. *)
Record RayOut : Type := mkRayOut {
  ro_z_vals : list R;
  ro_xyzs : list (vec3 R);
  ro_sigma : list R;
  ro_geo_feat : list feat;
  ro_deltas : list R;
  ro_alphas : list R;
  ro_weights_pre : list R;      (* weights before masking *)
  ro_mask : list bool;
  ro_rgbs : list (vec3 R);
  ro_weights : list R;          (* weights after masking *)
  ro_weights_sum : R;
  ro_depth : R;
  ro_depth_variance : R;
  ro_coordinates_map : vec3 R;
  ro_image : vec3 R;            (* before the background is mixed in *)
  ro_clip_features : list R
}.

Definition run_ray (r : NeRFRenderer R) (num_steps : nat) (perturb : bool)
    (rand : nat -> R) (ray : Ray) : RayOut :=
  let aabb := if training r then aabb_train r else aabb_infer r in
  let '(near, far) := near_far_from_aabb (rays_o ray) (rays_d ray) aabb (min_near r) in
  let z_vals := z_vals_row near far num_steps in
  let sd := sample_dist near far num_steps in
  let z_vals := if perturb then perturb_row z_vals rand sd else z_vals in
  let xyzs := map (fun z => clip_to_aabb aabb (vadd (rays_o ray) (vscale z (rays_d ray)))) z_vals in
  let density_outputs := map density xyzs in
  let sigma := map fst density_outputs in
  let geo_feat := map snd density_outputs in
  let deltas := deltas_row z_vals sd in
  let alphas := alphas_row (density_scale r) deltas sigma in
  let weights_pre := weights_row alphas in
  let mask := mask_row weights_pre in
  let rgbs := map2 (fun xm gs => color (fst xm) (rays_d ray) (snd xm) (snd gs) (fst gs))
                   (combine xyzs mask) density_outputs in
  let weights := masked_row weights_pre mask in
  let weights_sum := Rsum weights in
  let depth := Rsum (map2 Rmult weights z_vals) / direction_norms ray in
  let depth_variance :=
    Rsum (map2 (fun w z => w * (depth - z / direction_norms ray) ^ 2) weights z_vals) in
  let coordinates_map := vsum (map2 vscale weights xyzs) in
  let image := vsum (map2 vscale weights rgbs) in
  let clip_features :=
    lsum (clip_feat_dim r)
         (map2 (fun w gs => map (Rmult w) (clip (snd gs) (fst gs))) weights density_outputs) in
  mkRayOut z_vals xyzs sigma geo_feat deltas alphas weights_pre mask rgbs weights
           weights_sum depth depth_variance coordinates_map image clip_features.

(** ['depth_variance'] is the one per-ray entry that [run] does not view to
    the shape of the ray tensors: [run] returns it with shape [N], the staged
    buffer of [render] holds it with shape [B, N]. *)
Inductive variance : Type :=
| Flat (row : list R)         (* shape [N] *)
| Batched (row : list R).     (* shape [1, N] *)

Definition values (v : variance) : list R :=
  match v with
  | Flat row => row
  | Batched row => row
  end.

(** The dictionary a render call returns; the staged path leaves ['rgb'] out. *)
Record Results : Type := mkResults {
  depth : list R;
  depth_variance : variance;
  image : list (vec3 R);
  coordinates_map : list (vec3 R);
  rgb : option (list (list (vec3 R)));
  clip_features : list (list R)
}.

(** [image + (1 - weights_sum).unsqueeze(-1) * bg_color] with [bg_color = 1]. *)
Definition mix_background (o : RayOut) : vec3 R :=
  vadd (ro_image o) (vscale (1 - ro_weights_sum o) (1, 1, 1)).

(** [run]: the log of field queries made, and the exception raised or the
    result returned.  [rand n i] is the jitter draw for sample i of ray n.
    The outputs of the density query are viewed as [v.view(N, num_steps, -1)],
    which raises for a tensor without elements: the last dimension cannot be
    inferred. *)
Definition run (r : NeRFRenderer R) (rays : list Ray) (num_steps : nat)
    (upsample_steps : Z) (bg_color : option (vec3 R)) (perturb : bool)
    (rand : nat -> nat -> R) : list query * (error + Results) :=
  if negb (upsample_steps =? 0)%Z then ([], inl AssertionError)
  else match bg_color with
  | Some _ => ([], inl AssertionError)
  | None =>
    let N := length rays in
    if (N * num_steps =? 0)%nat then ([QDensity (N * num_steps)], inl RuntimeError)
    else
    let outs := map2 (fun n ray => run_ray r num_steps perturb (rand n) ray) (seq 0 N) rays in
    let log := [QDensity (N * num_steps); QColor (N * num_steps)] in
    if Rlt_dec 0 (bg_radius r) then (log, inl AssertionError)
    else (log ++ [QClip (N * num_steps)],
          inr (mkResults (map ro_depth outs) (Flat (map ro_depth_variance outs))
                         (map mix_background outs) (map ro_coordinates_map outs)
                         (Some (map ro_rgbs outs)) (map ro_clip_features outs)))
  end.

(** ** The staged batch renderer ([NeRFRenderer.render]) *)

(** One [torch.empty] buffer per output; [garbage] is what the memory held. *)
Definition empty_results (r : NeRFRenderer R) (N : nat) (garbage : R) : Results :=
  mkResults (repeat garbage N) (Batched (repeat garbage N))
            (repeat (garbage, garbage, garbage) N) (repeat (garbage, garbage, garbage) N)
            None (repeat (repeat garbage (clip_feat_dim r)) N).

(** [depth_variance[b:b + 1, head:tail] = vals] on the staged buffer, of
    shape [1, N]: the entries of [vals] are broadcast into the slice. *)
Definition write_variance (buffer : variance) (head : nat) (vals : variance) : variance :=
  Batched (write_slice (values buffer) head (values vals)).

Definition write_results (out : Results) (head : nat) (res : Results) : Results :=
  mkResults (write_slice (depth out) head (depth res))
            (write_variance (depth_variance out) head (depth_variance res))
            (write_slice (image out) head (image res))
            (write_slice (coordinates_map out) head (coordinates_map res))
            (rgb out)
            (write_slice (clip_features out) head (clip_features res)).

(** The [while head < N] loop; [None] when [fuel] iterations did not end it.
    [rand k] is the jitter tensor drawn by the k-th call of [run]. *)
Fixpoint render_loop (r : NeRFRenderer R) (rays : list Ray) (max_ray_batch : nat)
    (num_steps : nat) (upsample_steps : Z) (bg_color : option (vec3 R)) (perturb : bool)
    (rand : nat -> nat -> nat -> R) (fuel head k : nat) (log : list query) (out : Results)
    : option (list query * (error + Results)) :=
  if (head <? length rays)%nat then
    match fuel with
    | O => None
    | S fuel' =>
      let tail := Nat.min (head + max_ray_batch) (length rays) in
      let '(lg, res) := run r (slice rays head tail) num_steps upsample_steps bg_color
                            perturb (rand k) in
      match res with
      | inl e => Some (log ++ lg, inl e)
      | inr results_ =>
        render_loop r rays max_ray_batch num_steps upsample_steps bg_color perturb rand
                    fuel' (head + max_ray_batch) (S k) (log ++ lg)
                    (write_results out head results_)
      end
    end
  else Some (log, inr out).

Definition render (r : NeRFRenderer R) (rays : list Ray) (staged : bool)
    (max_ray_batch : nat) (num_steps : nat) (upsample_steps : Z)
    (bg_color : option (vec3 R)) (perturb : bool) (rand : nat -> nat -> nat -> R)
    (garbage : R) (fuel : nat) : option (list query * (error + Results)) :=
  if cuda_ray r then Some ([], inl AssertionError)
  else if staged && negb (cuda_ray r) then
    render_loop r rays max_ray_batch num_steps upsample_steps bg_color perturb rand
                fuel 0 0 [] (empty_results r (length rays) garbage)
  else Some (run r rays num_steps upsample_steps bg_color perturb (rand 0%nat)).

End Run.

(** ** Statements that may raise *)

Definition bind {A B : Type} (m : error + A) (k : A -> error + B) : error + B :=
  match m with
  | inl e => inl e
  | inr a => k a
  end.

Notation "x <- m ;; k" := (bind m (fun x => k))
  (at level 61, m at next level, right associativity).

(** [t.expand(...)] along one axis, to the size [n]: a matching size is kept,
    a size of 1 is broadcast, any other size raises. *)
Definition expand {A : Type} (l : list A) (n : nat) : error + list A :=
  if (length l =? n)%nat then inr l
  else match l with
       | [x] => inr (repeat x n)
       | _ => inl RuntimeError
       end.

(** ** The importance resampler ([sample_pdf]) *)

Section SamplePdf.
Local Open Scope Q_scope.

Definition Qsum (l : list Q) : Q := fold_right Qplus 0 l.

(** [torch.cumsum(l, -1)]. *)
Fixpoint cumsum_from (acc : Q) (l : list Q) : list Q :=
  match l with
  | [] => []
  | x :: t => acc + x :: cumsum_from (acc + x) t
  end.

Definition cumsum (l : list Q) : list Q :=
  match l with
  | [] => []
  | x :: t => x :: cumsum_from x t
  end.

(** [torch.linspace(a, b, steps)]. *)
Definition linspace (a b : Q) (steps : nat) : list Q :=
  map (fun i => a + inject_Z (Z.of_nat i) * ((b - a) / inject_Z (Z.of_nat (steps - 1))))
      (seq 0 steps).

(** [torch.searchsorted(sorted_sequence, v, right=True)]: the first index
    whose entry exceeds [v], the length when there is none. *)
Fixpoint searchsorted_right (sorted_sequence : list Q) (v : Q) : nat :=
  match sorted_sequence with
  | [] => O
  | x :: t => if Qle_bool x v then S (searchsorted_right t v) else O
  end.

(** [torch.gather] along the last axis at one index. *)
Definition gather (row : list Q) (i : Z) : option Q :=
  if (0 <=? i)%Z then nth_error row (Z.to_nat i) else None.

(** [cdf] of one row: normalised weights, cumulative sum, prefixed with
    [torch.zeros_like(cdf[..., :1])]. *)
Definition cdf_row (weights : list Q) : list Q :=
  let weights := map (fun w => w + 1e-5) weights in
  let pdf := map (fun w => w / Qsum weights) weights in
  let cdf := cumsum pdf in
  map (fun _ => 0) (firstn 1 cdf) ++ cdf.

(** The located interval of one quantile. *)
Definition below_of (cdf : list Q) (u : Q) : Z :=
  Z.max 0 (Z.of_nat (searchsorted_right cdf u) - 1).

Definition above_of (cdf : list Q) (u : Q) : Z :=
  Z.min (Z.of_nat (length cdf) - 1) (Z.of_nat (searchsorted_right cdf u)).

(** Inverting the CDF at one quantile [u]. *)
Definition invert_cdf (bins cdf : list Q) (u : Q) : error + Q :=
  let below := below_of cdf u in
  let above := above_of cdf u in
  match gather cdf below, gather cdf above, gather bins below, gather bins above with
  | Some cdf_g0, Some cdf_g1, Some bins_g0, Some bins_g1 =>
    let denom := cdf_g1 - cdf_g0 in
    let denom := if Qlt_le_dec denom 1e-5 then 1 else denom in
    let t := (u - cdf_g0) / denom in
    inr (bins_g0 + t * (bins_g1 - bins_g0))
  | _, _, _, _ => inl RuntimeError
  end.

Fixpoint sequence {A : Type} (l : list (error + A)) : error + list A :=
  match l with
  | [] => inr []
  | inl e :: _ => inl e
  | inr x :: t => match sequence t with inl e => inl e | inr t' => inr (x :: t') end
  end.

(** One row of [sample_pdf]; [bins] is expanded to the width of [cdf]
    ([matched_shape]) before it is gathered. *)
Definition sample_pdf_row (bins weights : list Q) (u : list Q) : error + list Q :=
  let cdf := cdf_row weights in
  bins <- expand bins (length cdf) ;;
  sequence (map (invert_cdf bins cdf) u).

(** [sample_pdf(bins, weights, n_samples, det)]; [rand b] is the row of
    [torch.rand] draws for row b.  The rows of [bins] are expanded to those
    of [cdf], of which there are as many as rows of [weights]; a tensor
    without rows has no width here. *)
Definition sample_pdf (bins weights : list (list Q)) (n_samples : nat) (det : bool)
    (rand : nat -> list Q) : error + list (list Q) :=
  if det && (n_samples =? 0)%nat then inl ZeroDivisionError
  else
    let n := inject_Z (Z.of_nat n_samples) in
    let u := fun b => if det then linspace (0 + 0.5 / n) (1 - 0.5 / n) n_samples
                      else firstn n_samples (rand b) in
    bins <- expand bins (length weights) ;;
    sequence (map2 (fun b bw => sample_pdf_row (fst bw) (snd bw) (u b))
                   (seq 0 (length weights)) (combine bins weights)).

End SamplePdf.

(** ** The occupancy grid manager *)

(** A [for] loop whose body may raise. *)
Fixpoint foldM {A S : Type} (body : S -> A -> error + S) (l : list A) (s : S) : error + S :=
  match l with
  | [] => inr s
  | x :: t => s' <- body s x ;; foldM body t s'
  end.

Definition set_nth {A : Type} (i : nat) (v : A) (l : list A) : list A :=
  firstn i l ++ v :: skipn (S i) l.

Definition lookup {A : Type} (l : list A) (i : nat) : error + A :=
  match nth_error l i with
  | Some v => inr v
  | None => inl IndexError
  end.

(** [row[indices]]. *)
Definition index_get {A : Type} (row : list A) (indices : list nat) : error + list A :=
  sequence (map (lookup row) indices).

(** [row[indices] = vals], written in order. *)
Fixpoint index_put {A : Type} (row : list A) (indices : list nat) (vals : list A)
    : error + list A :=
  match indices, vals with
  | i :: it, v :: vt =>
    if (i <? length row)%nat then index_put (set_nth i v row) it vt else inl IndexError
  | _, _ => inr row
  end.

(** [grid[cas, indices] = vals]. *)
Definition put_row {A : Type} (grid : list (list A)) (cas : nat) (indices : list nat)
    (vals : list A) : error + list (list A) :=
  row <- lookup grid cas ;;
  row' <- index_put row indices vals ;;
  inr (set_nth cas row' grid).

(** [t.split(S)] for [0 < S] and a tensor that is not empty. *)
Fixpoint split_fuel {A : Type} (fuel S : nat) (l : list A) : list (list A) :=
  match fuel, l with
  | Datatypes.S fuel', _ :: _ => firstn S l :: split_fuel fuel' S (skipn S l)
  | _, _ => []
  end.

Definition split {A : Type} (S : nat) (l : list A) : list (list A) :=
  split_fuel (length l) S l.

(** The rows of [custom_meshgrid(xs, ys, zs)], flattened. *)
Definition meshgrid (xs ys zs : list nat) : list (nat * nat * nat) :=
  flat_map (fun x => flat_map (fun y => map (fun z => (x, y, z)) zs) ys) xs.

(** [torch.randint(0, high, ...)] from raw draws. *)
Definition randint (high : nat) (raw : list nat) : error + list nat :=
  if (high =? 0)%nat then inl RuntimeError
  else inr (map (fun x => x mod high)%nat raw).

(** [torch.nonzero(mask).squeeze(-1)]. *)
Definition nonzero (mask : list bool) : list nat :=
  map fst (filter snd (combine (seq 0 (length mask)) mask)).

Section Occupancy.
Local Open Scope Q_scope.
Context {feat : Type} {F : Field Q feat} {K : Raymarching Q}.

Definition Qltb (a b : Q) : bool := negb (Qle_bool b a).

Definition Qnat (n : nat) : Q := inject_Z (Z.of_nat n).

Definition qadd (a b : vec3 Q) : vec3 Q :=
  let '(a0, a1, a2) := a in let '(b0, b1, b2) := b in (a0 + b0, a1 + b1, a2 + b2).

Definition qscale (k : Q) (a : vec3 Q) : vec3 Q :=
  let '(a0, a1, a2) := a in (a0 * k, a1 * k, a2 * k).

(** [math.ceil(math.log2(b))] for [0 < b], with the logarithm taken exactly.
    The interpreter rounds [math.log2(b)] to a double before [math.ceil]: the
    two agree when [b] is a power of two, and can differ when [b] exceeds a
    power of two by less than the rounding of the logarithm. *)
Definition ceil_log2 (b : Q) : Z :=
  if Qle_bool 1 b then Z.log2_up (Qceiling b) else (- Z.log2 (Qfloor (/ b)))%Z.

(** [__init__] with a scalar [bound]; without [cuda_ray] the extra state is
    not created and its fields stay empty. *)
Definition init (bound : Q) (cuda_ray : bool)
    (density_scale min_near density_thresh bg_radius : Q) (clip_feat_dim : nat)
    : error + NeRFRenderer Q :=
  if Qle_bool bound 0 then inl ValueError
  else
    let cascade := (1 + ceil_log2 bound)%Z in
    let grid_size := 128%nat in
    let aabb_train := ((- bound, - bound, - bound), (bound, bound, bound)) in
    if cuda_ray then
      if (cascade <? 0)%Z then inl RuntimeError
      else inr (mkRenderer bound cascade grid_size density_scale min_near density_thresh
                  bg_radius aabb_train aabb_train true cuda_ray
                  (repeat (repeat 0 (grid_size ^ 3)) (Z.to_nat cascade))
                  (repeat 0%nat (Z.to_nat cascade * grid_size ^ 3 / 8))
                  (Some 0) 0 (repeat (0, 0)%Z 16) 0%Z 0 clip_feat_dim)
    else inr (mkRenderer bound cascade grid_size density_scale min_near density_thresh
                bg_radius aabb_train aabb_train true cuda_ray
                [] [] (Some 0) 0 [] 0%Z 0 clip_feat_dim).

(** The renderer with its extra state replaced. *)
Definition with_extra_state (r : NeRFRenderer Q) (grid : list (list Q))
    (bitfield : list nat) (mean : option Q) (iter : nat) (counter : list (Z * Z))
    (count : Z) (step : nat) : NeRFRenderer Q :=
  mkRenderer (bound r) (cascade r) (grid_size r) (density_scale r) (min_near r)
             (density_thresh r) (bg_radius r) (aabb_train r) (aabb_infer r) (training r)
             (cuda_ray r) grid bitfield mean iter counter count step (clip_feat_dim r).

Definition reset_extra_state (r : NeRFRenderer Q) : NeRFRenderer Q :=
  if negb (cuda_ray r) then r
  else with_extra_state r (map (map (fun _ => 0)) (density_grid r)) (density_bitfield r)
                        (Some 0) 0 (map (fun _ => (0, 0)%Z) (step_counter r)) 0%Z 0.

(** [2 * coords.float() / (self.grid_size - 1) - 1], one row, for a grid of
    at least two cells a side. *)
Definition cell_center (gs : nat) (c : nat * nat * nat) : vec3 Q :=
  let '(x, y, z) := c in
  let d := inject_Z (Z.of_nat gs - 1) in
  (2 * Qnat x / d - 1, 2 * Qnat y / d - 1, 2 * Qnat z / d - 1).

(** [min(2**cas, self.bound)]. *)
Definition cascade_bound (r : NeRFRenderer Q) (cas : nat) : Q :=
  Qmin (2 ^ Z.of_nat cas) (bound r).

(** A camera-to-world pose: the rows of [pose[:3, :3]] and [pose[:3, 3]]. *)
Definition Pose : Type := ((vec3 Q * vec3 Q * vec3 Q) * vec3 Q)%type.

(** [(p - pose[:3, 3]) @ pose[:3, :3]]. *)
Definition to_camera (pose : Pose) (p : vec3 Q) : vec3 Q :=
  let '((r0, r1, r2), t) := pose in
  let '(r00, r01, r02) := r0 in
  let '(r10, r11, r12) := r1 in
  let '(r20, r21, r22) := r2 in
  let '(tx, ty, tz) := t in
  let '(x, y, z) := p in
  let dx := x - tx in
  let dy := y - ty in
  let dz := z - tz in
  (dx * r00 + dy * r10 + dz * r20,
   dx * r01 + dy * r11 + dz * r21,
   dx * r02 + dy * r12 + dz * r22).

(** [mask_z & mask_x & mask_y] for one camera and one point, for focal
    lengths other than 0. *)
Definition covered (intrinsic : Q * Q * Q * Q) (half_grid_size : Q) (pose : Pose)
    (p : vec3 Q) : bool :=
  let '(fx, fy, cx, cy) := intrinsic in
  let '(x, y, z) := to_camera pose p in
  Qltb 0 z
  && Qltb (Qabs x) (cx / fx * z + half_grid_size * 2)
  && Qltb (Qabs y) (cy / fy * z + half_grid_size * 2).

(** [fx, fy, cx, cy = intrinsic] are python numbers: [cx / fx] and [cy / fy]
    raise when a focal length is 0. *)
Definition zero_focal_length (intrinsic : Q * Q * Q * Q) : bool :=
  let '(fx, fy, _, _) := intrinsic in Qeq_bool fx 0 || Qeq_bool fy 0.

Definition mark_untrained_grid (r : NeRFRenderer Q) (poses : list Pose)
    (intrinsic : Q * Q * Q * Q) (S : nat) : error + NeRFRenderer Q :=
  if negb (cuda_ray r) then inr r
  else if (S =? 0)%nat then inl RuntimeError
  else
    let X := split S (seq 0 (grid_size r)) in
    let Y := split S (seq 0 (grid_size r)) in
    let Z := split S (seq 0 (grid_size r)) in
    let count := map (map (fun _ => 0%nat)) (density_grid r) in
    count <- foldM (fun count xs => foldM (fun count ys => foldM (fun count zs =>
        let coords := meshgrid xs ys zs in
        let indices := map morton3D coords in
        let world_xyzs := map (cell_center (grid_size r)) coords in
        foldM (fun count cas =>
            let bound := cascade_bound r cas in
            let half_grid_size := bound / Qnat (grid_size r) in
            let cas_world_xyzs := map (qscale (bound - half_grid_size)) world_xyzs in
            (* the poses are taken S at a time: poses[head:tail] *)
            foldM (fun count batch =>
                if zero_focal_length intrinsic then inl ZeroDivisionError else
                let mask := map (fun p =>
                    length (filter (fun pose => covered intrinsic half_grid_size pose p)
                                   batch)) cas_world_xyzs in
                row <- lookup count cas ;;
                old <- index_get row indices ;;
                row' <- index_put row indices (map2 Nat.add old mask) ;;
                inr (set_nth cas row' count))
              (split S poses) count)
          (seq 0 (Z.to_nat (cascade r))) count) Z count) Y count) X count ;;
    inr (with_extra_state r
           (map2 (map2 (fun d (c : nat) => if (c =? 0)%nat then - (1) else d))
                 (density_grid r) count)
           (density_bitfield r) (mean_density r) (iter_density r) (step_counter r)
           (mean_count r) (local_step r)).

(** The random draws of one [update_extra_state] call. *)
Record Draws : Type := mkDraws {
  rand_like_full : nat -> nat * nat * nat -> vec3 Q;  (* cascade, cell: noise in [0, 1) *)
  rand_like_partial : nat -> nat -> vec3 Q;           (* cascade, row *)
  randint_coords : nat -> nat -> nat * nat * nat;     (* cascade, row: raw draws *)
  randint_occ : nat -> nat -> nat                     (* cascade, row: raw draw *)
}.

(** The density sampled for one cell: the centre scaled to the cascade, plus
    noise in [-hgs, hgs], queried and scaled by [density_scale]. *)
Definition sample_cell (r : NeRFRenderer Q) (cas : nat) (noise : vec3 Q)
    (c : nat * nat * nat) : Q :=
  let bound := cascade_bound r cas in
  let half_grid_size := bound / Qnat (grid_size r) in
  let cas_xyzs := qscale (bound - half_grid_size) (cell_center (grid_size r) c) in
  let '(n0, n1, n2) := noise in
  let cas_xyzs := qadd cas_xyzs (qscale half_grid_size (n0 * 2 - 1, n1 * 2 - 1, n2 * 2 - 1)) in
  fst (density cas_xyzs) * density_scale r.

(** The full update: every block of cells, every cascade. *)
Definition full_update (r : NeRFRenderer Q) (dr : Draws) (S : nat)
    (tmp_grid : list (list Q)) : error + list (list Q) :=
  if (S =? 0)%nat then inl RuntimeError
  else
    let X := split S (seq 0 (grid_size r)) in
    let Y := split S (seq 0 (grid_size r)) in
    let Z := split S (seq 0 (grid_size r)) in
    foldM (fun tmp_grid xs => foldM (fun tmp_grid ys => foldM (fun tmp_grid zs =>
        let coords := meshgrid xs ys zs in
        let indices := map morton3D coords in
        foldM (fun tmp_grid cas =>
            let sigmas := map (fun c => sample_cell r cas (rand_like_full dr cas c) c) coords in
            put_row tmp_grid cas indices sigmas)
          (seq 0 (Z.to_nat (cascade r))) tmp_grid) Z tmp_grid) Y tmp_grid) X tmp_grid.

(** The cells one cascade of the partial update samples: N random cells and
    N cells drawn from the occupied ones. *)
Definition partial_cells (r : NeRFRenderer Q) (dr : Draws) (cas : nat)
    : error + list nat * list (nat * nat * nat) :=
  let N := (grid_size r ^ 3 / 4)%nat in
  let raw := map (randint_coords dr cas) (seq 0 N) in
  xs <- randint (grid_size r) (map (fun c => fst (fst c)) raw) ;;
  ys <- randint (grid_size r) (map (fun c => snd (fst c)) raw) ;;
  zs <- randint (grid_size r) (map snd raw) ;;
  let coords := combine (combine xs ys) zs in
  let indices := map morton3D coords in
  row <- lookup (density_grid r) cas ;;
  let occ_indices := nonzero (map (Qltb 0) row) in
  rand_mask <- randint (length occ_indices) (map (randint_occ dr cas) (seq 0 N)) ;;
  occ_indices <- index_get occ_indices rand_mask ;;
  let occ_coords := map morton3D_invert occ_indices in
  inr (indices ++ occ_indices, coords ++ occ_coords).

Definition partial_update (r : NeRFRenderer Q) (dr : Draws) (tmp_grid : list (list Q))
    : error + list (list Q) :=
  foldM (fun tmp_grid cas =>
      cells <- partial_cells r dr cas ;;
      let '(indices, coords) := cells in
      let sigmas := map2 (fun k c => sample_cell r cas (rand_like_partial dr cas k) c)
                         (seq 0 (length coords)) coords in
      put_row tmp_grid cas indices sigmas)
    (seq 0 (Z.to_nat (cascade r))) tmp_grid.

(** The ema update of one row:
    [valid_mask = (density_grid >= 0) & (tmp_grid >= 0)],
    [density_grid[valid_mask] = maximum(density_grid[valid_mask] * decay, tmp_grid[valid_mask])]. *)
Definition ema_row (decay : Q) (old tmp : list Q) : list Q :=
  map2 (fun o t => if Qle_bool 0 o && Qle_bool 0 t then Qmax (o * decay) t else o) old tmp.

(** [torch.mean(grid.clamp(min=0)).item()]; the mean of a grid without cells
    is nan. *)
Definition mean_clamped (grid : list (list Q)) : option Q :=
  let cells := concat grid in
  if (length cells =? 0)%nat then None
  else Some (Qsum (map (fun d => Qmax d 0) cells) / Qnat (length cells)).

(** The sampled grid of one call: full while [iter_density < 16], partial after. *)
Definition sampled_grid (r : NeRFRenderer Q) (dr : Draws) (S : nat)
    : error + list (list Q) :=
  let tmp_grid := map (map (fun _ => - (1))) (density_grid r) in
  if (iter_density r <? 16)%nat then full_update r dr S tmp_grid
  else partial_update r dr tmp_grid.

Definition update_extra_state (r : NeRFRenderer Q) (decay : Q) (S : nat) (dr : Draws)
    : error + NeRFRenderer Q :=
  if negb (cuda_ray r) then inr r
  else
    tmp_grid <- sampled_grid r dr S ;;
    let density_grid := map2 (ema_row decay) (density_grid r) tmp_grid in
    let mean_density := mean_clamped density_grid in
    let iter_density := Datatypes.S (iter_density r) in
    (* min(self.mean_density, self.density_thresh) is nan when the mean is *)
    let density_thresh := option_map (fun mean => Qmin mean (density_thresh r))
                                     mean_density in
    let density_bitfield := packbits density_grid density_thresh (density_bitfield r) in
    let total_step := Nat.min 16 (local_step r) in
    let mean_count :=
      if (0 <? total_step)%nat
      then Z.quot (fold_right Z.add 0%Z (map fst (firstn total_step (step_counter r))))
                  (Z.of_nat total_step)
      else mean_count r in
    inr (with_extra_state r density_grid density_bitfield mean_density iter_density
                          (step_counter r) mean_count 0).

End Occupancy.

(** * Properties *)

Unset Implicit Arguments.

(** ** Rows and slices *)

Lemma map2_length {A B C : Type} (f : A -> B -> C) (l : list A) (l' : list B) :
  length (map2 f l l') = Nat.min (length l) (length l').
Proof.
  revert l'; induction l as [|x t IH]; intros [|y t']; simpl; auto.
Qed.

Lemma nth_map2 {A B C : Type} (f : A -> B -> C) (l : list A) (l' : list B)
    (i : nat) (a : A) (b : B) (c : C) :
  (i < length l)%nat -> (i < length l')%nat ->
  nth i (map2 f l l') c = f (nth i l a) (nth i l' b).
Proof.
  revert l' i; induction l as [|x t IH]; intros [|y t'] [|i]; simpl; intros; try lia; auto.
  apply IH; lia.
Qed.

Lemma map2_map_l {A A' B C : Type} (f : A' -> B -> C) (g : A -> A') (l : list A)
    (l' : list B) :
  map2 f (map g l) l' = map2 (fun x y => f (g x) y) l l'.
Proof.
  revert l'; induction l as [|x t IH]; intros [|y t']; simpl; auto.
  now rewrite IH.
Qed.

Lemma map2_map_r {A B B' C : Type} (f : A -> B' -> C) (g : B -> B') (l : list A)
    (l' : list B) :
  map2 f l (map g l') = map2 (fun x y => f x (g y)) l l'.
Proof.
  revert l'; induction l as [|x t IH]; intros [|y t']; simpl; auto.
  now rewrite IH.
Qed.

Lemma map_map2 {A B C D : Type} (g : C -> D) (f : A -> B -> C) (l : list A) (l' : list B) :
  map g (map2 f l l') = map2 (fun x y => g (f x y)) l l'.
Proof.
  revert l'; induction l as [|x t IH]; intros [|y t']; simpl; auto.
  now rewrite IH.
Qed.

Lemma map2_ext_in {A B C : Type} (f g : A -> B -> C) (l : list A) (l' : list B) :
  (forall x y, In (x, y) (combine l l') -> f x y = g x y) ->
  map2 f l l' = map2 g l l'.
Proof.
  revert l'; induction l as [|x t IH]; intros [|y t'] H; simpl; auto.
  rewrite (H x y) by (left; reflexivity).
  f_equal. apply IH. intros; apply H; right; assumption.
Qed.

Lemma map2_app {A B C : Type} (f : A -> B -> C) (l1 l2 : list A) (l1' l2' : list B) :
  length l1 = length l1' ->
  map2 f (l1 ++ l2) (l1' ++ l2') = map2 f l1 l1' ++ map2 f l2 l2'.
Proof.
  revert l1'; induction l1 as [|x t IH]; intros [|y t'] H; simpl in *; try discriminate; auto.
  f_equal. apply IH. lia.
Qed.

Lemma nth_tl {A : Type} (l : list A) (i : nat) (d : A) : nth i (tl l) d = nth (S i) l d.
Proof. destruct l; simpl; auto. destruct i; reflexivity. Qed.

Lemma nth_removelast {A : Type} (l : list A) (i : nat) (d : A) :
  (S i < length l)%nat -> nth i (removelast l) d = nth i l d.
Proof.
  revert i; induction l as [|x t IH]; intros i H; simpl in *; try lia.
  destruct t as [|y t]; simpl in *; try lia.
  destruct i; auto. apply IH. lia.
Qed.

Lemma removelast_length {A : Type} (l : list A) : length (removelast l) = (length l - 1)%nat.
Proof.
  induction l as [|x t IH]; simpl; auto.
  destruct t as [|y t]; simpl in *; auto. rewrite IH. lia.
Qed.

(** ** The compositor *)

Section CompositorFacts.
Local Open Scope R_scope.
Context {feat : Type} {F : Field R feat} {K : Raymarching R}.


Lemma cumprod_from_length (acc : R) (l : list R) : length (cumprod_from acc l) = length l.
Proof. revert acc; induction l; simpl; intros; auto. Qed.



Lemma transmittance_row_length (alphas : list R) :
  length (transmittance_row alphas) = length alphas.
Proof.
  unfold transmittance_row, alphas_shifted. rewrite removelast_length.
  destruct alphas as [|a t]; [reflexivity|].
  simpl. rewrite cumprod_from_length, length_map. lia.
Qed.

Lemma nth_cumprod_from (l : list R) (acc : R) (i : nat) :
  (S i < length l)%nat ->
  nth (S i) (cumprod_from acc l) 0 = nth i (cumprod_from acc l) 0 * nth (S i) l 0.
Proof.
  revert acc i; induction l as [|x t IH]; intros acc i H; simpl in *; try lia.
  destruct i.
  - destruct t; simpl in *; [lia | reflexivity].
  - apply IH. lia.
Qed.

(** The recurrence of the transmittance: [Tr_0 = 1] and
    [Tr_(i+1) = Tr_i * (1 - alpha_i + 1e-15)]. *)
Lemma transmittance_row_rec (alphas : list R) :
  (0 < length alphas)%nat ->
  nth 0 (transmittance_row alphas) 0 = 1 /\
  forall i, (S i < length alphas)%nat ->
    nth (S i) (transmittance_row alphas) 0
    = nth i (transmittance_row alphas) 0 * (1 - nth i alphas 0 + 1e-15).
Proof.
  intros Hlen. destruct alphas as [|a t]; [simpl in Hlen; lia|].
  unfold transmittance_row, alphas_shifted.
  cbn [firstn map app cumprod].
  set (f := fun a0 => 1 - a0 + 1e-15).
  split.
  - reflexivity.
  - intros i Hi. simpl length in Hi.
    rewrite !nth_removelast by (simpl; rewrite cumprod_from_length, length_map; lia).
    destruct i as [|i].
    + cbn. unfold f. lra.
    + change (nth (S (S i)) (1 :: ?l) 0) with (nth (S i) l 0).
      change (nth (S i) (1 :: ?l) 0) with (nth i l 0).
      change (1 - a + 1e-15 :: map f t) with (map f (a :: t)).
      rewrite nth_cumprod_from by (rewrite length_map; simpl; lia).
      f_equal.
      rewrite (nth_indep _ 0 (f 0)) by (rewrite length_map; simpl; lia).
      now rewrite map_nth.
Qed.


Lemma linspace01_length (T : nat) : length (linspace01 T) = T.
Proof. unfold linspace01. now rewrite length_map, length_seq. Qed.

Lemma z_vals_row_length (near far : R) (T : nat) : length (z_vals_row near far T) = T.
Proof. unfold z_vals_row. now rewrite length_map, linspace01_length. Qed.


Lemma perturb_row_length (zs : list R) (rand : nat -> R) (sd : R) :
  length (perturb_row zs rand sd) = length zs.
Proof.
  unfold perturb_row. rewrite map2_length, length_map, length_seq. apply Nat.min_id.
Qed.


Lemma deltas_row_short (zs : list R) (sd : R) :
  (length zs <= 1)%nat -> deltas_row zs sd = [].
Proof.
  destruct zs as [|z [|z' t]]; simpl; intros; try lia; reflexivity.
Qed.

Lemma deltas_row_length (zs : list R) (sd : R) :
  (2 <= length zs)%nat -> length (deltas_row zs sd) = length zs.
Proof.
  intros H. unfold deltas_row. rewrite length_app, length_map, length_firstn.
  rewrite map2_length, removelast_length.
  destruct zs as [|z [|z' t]]; simpl in *; lia.
Qed.

Lemma nth_deltas_row (zs : list R) (sd : R) (i : nat) :
  (S i < length zs)%nat ->
  nth i (deltas_row zs sd) 0 = nth (S i) zs 0 - nth i zs 0.
Proof.
  intros H. unfold deltas_row.
  assert (Hl : length (map2 Rminus (tl zs) (removelast zs)) = (length zs - 1)%nat).
  { rewrite map2_length, removelast_length. destruct zs; simpl in *; lia. }
  rewrite app_nth1 by lia.
  rewrite (nth_map2 _ _ _ _ 0 0).
  - now rewrite nth_tl, nth_removelast.
  - destruct zs; simpl in *; lia.
  - rewrite removelast_length. lia.
Qed.

Lemma nth_deltas_row_last (zs : list R) (sd : R) :
  (2 <= length zs)%nat -> nth (length zs - 1) (deltas_row zs sd) 0 = sd.
Proof.
  intros H. unfold deltas_row.
  assert (Hl : length (map2 Rminus (tl zs) (removelast zs)) = (length zs - 1)%nat).
  { rewrite map2_length, removelast_length. destruct zs; simpl in *; lia. }
  rewrite app_nth2 by lia. rewrite Hl, Nat.sub_diag.
  destruct (map2 Rminus (tl zs) (removelast zs)) eqn:E.
  - simpl in Hl. lia.
  - simpl. lra.
Qed.

Lemma nth_alphas_row (ds : R) (deltas sigmas : list R) (i : nat) :
  (i < length deltas)%nat -> (i < length sigmas)%nat ->
  nth i (alphas_row ds deltas sigmas) 0
  = 1 - exp (- nth i deltas 0 * ds * nth i sigmas 0).
Proof.
  intros. unfold alphas_row.
  now rewrite (nth_map2 (fun dl s => 1 - exp (- dl * ds * s)) _ _ _ 0 0).
Qed.

Lemma nth_weights_row (alphas : list R) (i : nat) :
  (i < length alphas)%nat ->
  nth i (weights_row alphas) 0 = nth i alphas 0 * nth i (transmittance_row alphas) 0.
Proof.
  intros. unfold weights_row. rewrite (nth_map2 Rmult _ _ _ 0 0); auto.
  now rewrite transmittance_row_length.
Qed.

(** The near/far pair the kernel returns for a ray. *)
Definition near_far (r : NeRFRenderer R) (ray : Ray) : R * R :=
  near_far_from_aabb (rays_o ray) (rays_d ray)
                     (if training r then aabb_train r else aabb_infer r) (min_near r).

(** How the intermediate rows of [run_ray] depend on one another. *)
Lemma run_ray_rows (r : NeRFRenderer R) (T : nat) (perturb : bool) (rand : nat -> R)
    (ray : Ray) :
  let o := run_ray r T perturb rand ray in
  let near := fst (near_far r ray) in
  let far := snd (near_far r ray) in
  ro_z_vals o = (if perturb
                 then perturb_row (z_vals_row near far T) rand (sample_dist near far T)
                 else z_vals_row near far T)
  /\ ro_sigma o = map (fun p => fst (density p)) (ro_xyzs o)
  /\ ro_geo_feat o = map (fun p => snd (density p)) (ro_xyzs o)
  /\ length (ro_xyzs o) = length (ro_z_vals o)
  /\ ro_deltas o = deltas_row (ro_z_vals o) (sample_dist near far T)
  /\ ro_alphas o = alphas_row (density_scale r) (ro_deltas o) (ro_sigma o)
  /\ ro_weights_pre o = weights_row (ro_alphas o)
  /\ ro_mask o = mask_row (ro_weights_pre o)
  /\ ro_weights o = masked_row (ro_weights_pre o) (ro_mask o).
Proof.
  unfold near_far, run_ray.
  destruct (near_far_from_aabb _ _ _ _) as [near far]. cbn.
  rewrite !map_map, length_map. repeat split; reflexivity.
Qed.

Lemma run_ray_z_vals_length (r : NeRFRenderer R) (T : nat) (perturb : bool)
    (rand : nat -> R) (ray : Ray) :
  length (ro_z_vals (run_ray r T perturb rand ray)) = T.
Proof.
  destruct (run_ray_rows r T perturb rand ray) as (-> & _).
  destruct perturb; now rewrite ?perturb_row_length, z_vals_row_length.
Qed.

(** For two or more samples per ray the compositor computes
    [delta_i = z_(i+1) - z_i] for [i < T-1], the last delta
    [sample_dist = (far - near) / T], [alpha_i = 1 - exp(-delta_i *
    density_scale * sigma_i)], the transmittance [Tr_0 = 1],
    [Tr_(i+1) = Tr_i * (1 - alpha_i + 1e-15)], and [weight_i = alpha_i * Tr_i]. *)
Theorem compositor_formulas (r : NeRFRenderer R) (T : nat) (perturb : bool)
    (rand : nat -> R) (ray : Ray) :
  (2 <= T)%nat ->
  let o := run_ray r T perturb rand ray in
  let z := fun i => nth i (ro_z_vals o) 0 in
  let delta := fun i => nth i (ro_deltas o) 0 in
  let sigma := fun i => nth i (ro_sigma o) 0 in
  let alpha := fun i => nth i (ro_alphas o) 0 in
  let Tr := fun i => nth i (transmittance_row (ro_alphas o)) 0 in
  let weight := fun i => nth i (ro_weights_pre o) 0 in
  length (ro_z_vals o) = T
  /\ length (ro_weights_pre o) = T
  /\ (forall i, (S i < T)%nat -> delta i = z (S i) - z i)
  /\ delta (T - 1)%nat = (snd (near_far r ray) - fst (near_far r ray)) / INR T
  /\ (forall i, (i < T)%nat -> alpha i = 1 - exp (- delta i * density_scale r * sigma i))
  /\ Tr 0%nat = 1
  /\ (forall i, (S i < T)%nat -> Tr (S i) = Tr i * (1 - alpha i + 1e-15))
  /\ (forall i, (i < T)%nat -> weight i = alpha i * Tr i).
Proof.
  intros HT o z delta sigma alpha Tr weight.
  destruct (run_ray_rows r T perturb rand ray)
    as (Hz & Hs & _ & Hx & Hd & Ha & Hw & _).
  fold o in Hz, Hs, Hx, Hd, Ha, Hw.
  assert (Lz : length (ro_z_vals o) = T) by apply run_ray_z_vals_length.
  assert (Ld : length (ro_deltas o) = T) by (rewrite Hd, deltas_row_length; lia).
  assert (Ls : length (ro_sigma o) = T) by (rewrite Hs, length_map; lia).
  assert (La : length (ro_alphas o) = T).
  { rewrite Ha. unfold alphas_row. rewrite map2_length. lia. }
  split; [exact Lz|]. split.
  { rewrite Hw. unfold weights_row.
    rewrite map2_length, transmittance_row_length. lia. }
  split.
  { intros i Hi. unfold delta, z. rewrite Hd. apply nth_deltas_row. lia. }
  split.
  { unfold delta. rewrite Hd. rewrite <- Lz at 1.
    rewrite nth_deltas_row_last by lia. reflexivity. }
  split.
  { intros i Hi. unfold alpha. rewrite Ha. apply nth_alphas_row; lia. }
  destruct (transmittance_row_rec (ro_alphas o)) as [H0 HS]; [lia|].
  split; [exact H0|]. split.
  { intros i Hi. apply HS. lia. }
  intros i Hi. unfold weight. rewrite Hw. apply nth_weights_row. lia.
Qed.

(** C4 (at its failing input).  With a single sample per ray the row of
    deltas is built from the empty slice [deltas[..., :1]]: no delta, alpha
    or weight is computed for the sample, so that the ray composites to the
    background whatever the density is. *)
Theorem single_sample_has_no_weight (r : NeRFRenderer R) (perturb : bool)
    (rand : nat -> R) (ray : Ray) :
  let o := run_ray r 1 perturb rand ray in
  length (ro_z_vals o) = 1%nat
  /\ ro_deltas o = []
  /\ ro_alphas o = []
  /\ ro_weights_pre o = []
  /\ ro_weights_sum o = 0
  /\ mix_background o = (1, 1, 1).
Proof.
  intros o.
  destruct (run_ray_rows r 1 perturb rand ray) as (_ & _ & _ & _ & Hd & Ha & Hw & Hm & Hk).
  fold o in Hd, Ha, Hw, Hm, Hk.
  assert (Lz : length (ro_z_vals o) = 1%nat) by apply run_ray_z_vals_length.
  assert (Ed : ro_deltas o = []) by (rewrite Hd; apply deltas_row_short; lia).
  assert (Ea : ro_alphas o = []) by (rewrite Ha, Ed; reflexivity).
  assert (Ew : ro_weights_pre o = []) by (rewrite Hw, Ea; reflexivity).
  assert (Ek : ro_weights o = []) by (rewrite Hk, Ew; reflexivity).
  repeat split; auto.
  - unfold o, run_ray in *. destruct (near_far_from_aabb _ _ _ _). cbn in *.
    now rewrite Ek.
  - unfold mix_background, o, run_ray in *. destruct (near_far_from_aabb _ _ _ _).
    cbn in *. rewrite Ek. cbn. f_equal; [f_equal|]; lra.
Qed.

(** *** Conservation of the weights *)











(** *** Masking *)









(** *** Unsupported configurations *)

(** C9 (amended).  A non-zero number of upsample steps makes [run] raise
    AssertionError before any field query, whatever the other arguments.  A
    positive [bg_radius] never lets [run] return a result either, but it does
    not stop the call before the field is queried: for a batch of at least
    one ray and one sample per ray, the density and the color of every sample
    are queried first and AssertionError is raised where the background would
    be mixed in, before the clip features are queried; for an empty batch or
    no sample, the density query is made and the view of its output raises
    RuntimeError, whatever [bg_radius] is. *)
Theorem unsupported_configurations_fail (r : NeRFRenderer R) (rays : list Ray)
    (T : nat) (upsample_steps : Z) (bg_color : option (vec3 R)) (perturb : bool)
    (rand : nat -> nat -> R) :
  (upsample_steps <> 0%Z ->
   run r rays T upsample_steps bg_color perturb rand = ([], inl AssertionError))
  /\ (0 < bg_radius r ->
      forall log res,
        run r rays T upsample_steps bg_color perturb rand <> (log, inr res))
  /\ (0 < bg_radius r -> upsample_steps = 0%Z -> bg_color = None ->
      (0 < length rays * T)%nat ->
      run r rays T upsample_steps bg_color perturb rand
      = ([QDensity (length rays * T); QColor (length rays * T)], inl AssertionError))
  /\ (upsample_steps = 0%Z -> bg_color = None -> (length rays * T = 0)%nat ->
      run r rays T upsample_steps bg_color perturb rand
      = ([QDensity 0], inl RuntimeError)).
Proof.
  unfold run. repeat split.
  - intros Hup. apply Z.eqb_neq in Hup. now rewrite Hup.
  - intros Hbg log res. destruct (negb (upsample_steps =? 0)%Z); [discriminate|].
    destruct bg_color; [discriminate|].
    destruct (length rays * T =? 0)%nat; [discriminate|].
    destruct (Rlt_dec 0 (bg_radius r)); [discriminate | contradiction].
  - intros Hbg -> -> HNT. cbn [Z.eqb negb].
    destruct (Nat.eqb_spec (length rays * T) 0) as [E | _]; [lia |].
    destruct (Rlt_dec 0 (bg_radius r)); [reflexivity | contradiction].
  - intros -> -> HNT. cbn [Z.eqb negb]. rewrite HNT. reflexivity.
Qed.

(** *** Staged rendering *)

Lemma firstn_plus {A : Type} (a b : nat) (l : list A) :
  firstn (a + b) l = firstn a l ++ firstn b (skipn a l).
Proof.
  revert l; induction a as [|a IH]; intros l; [reflexivity|].
  destruct l as [|x t]; cbn; [now rewrite firstn_nil|]. now rewrite IH.
Qed.

Lemma map2_seq_ignore {A B : Type} (f : A -> B) (l : list A) (a : nat) :
  map2 (fun (_ : nat) x => f x) (seq a (length l)) l = map f l.
Proof.
  revert a; induction l as [|x t IH]; intros a; cbn; [reflexivity|]. now rewrite IH.
Qed.

(** A buffer in which the rows of the rays before [h] are written. *)
Definition written {A B : Type} (g : A -> B) (rays : list A) (init : list B) (h : nat)
    : list B :=
  map g (firstn h rays) ++ skipn h init.

Lemma written_all {A B : Type} (g : A -> B) (rays : list A) (init : list B) (h : nat) :
  length init = length rays -> (length rays <= h)%nat ->
  written g rays init h = map g rays.
Proof.
  intros Hl Hh. unfold written.
  rewrite firstn_all2 by assumption. rewrite skipn_all2 by lia. apply app_nil_r.
Qed.

(** Writing the rows of the chunk [rays[h : min(h + n, N)]] at [h]. *)
Lemma write_slice_chunk {A B : Type} (g : A -> B) (rays : list A) (init : list B)
    (h n : nat) :
  length init = length rays -> (h < length rays)%nat ->
  write_slice (written g rays init h) h
              (map g (slice rays h (Nat.min (h + n) (length rays))))
  = written g rays init (h + n).
Proof.
  intros Hl Hh. unfold write_slice, written, slice.
  set (N := length rays) in *.
  assert (L1 : length (map g (firstn h rays)) = h).
  { rewrite length_map, length_firstn. fold N. lia. }
  rewrite firstn_app, L1, Nat.sub_diag, firstn_O, app_nil_r.
  rewrite <- L1 at 1. rewrite firstn_all.
  rewrite skipn_app, L1.
  rewrite (skipn_all2 (map g (firstn h rays))) by (rewrite L1; lia).
  rewrite length_map, length_firstn, length_skipn. fold N.
  replace (h + Nat.min (Nat.min (h + n) N - h) (N - h) - h)%nat
    with (Nat.min (h + n) N - h)%nat by lia.
  rewrite skipn_skipn. cbn [app].
  rewrite app_assoc, <- map_app.
  f_equal.
  - f_equal. destruct (le_lt_dec N (h + n)) as [Hge | Hlt].
    + rewrite (firstn_all2 (n := h + n)) by (fold N; lia).
      replace (Nat.min (h + n) N - h)%nat with (N - h)%nat by lia.
      rewrite (firstn_all2 (n := N - h)) by (rewrite length_skipn; fold N; lia).
      apply firstn_skipn.
    + replace (Nat.min (h + n) N - h)%nat with n by lia.
      symmetry. apply firstn_plus.
  - destruct (le_lt_dec N (h + n)) as [Hge | Hlt].
    + rewrite !skipn_all2 by lia. reflexivity.
    + f_equal. lia.
Qed.

(** The rows [run] computes for a ray when the depths are not jittered. *)
Definition ray_out (r : NeRFRenderer R) (T : nat) : Ray -> RayOut :=
  run_ray r T false (fun _ => 0).

Lemma run_ray_unperturbed (r : NeRFRenderer R) (T : nat) (rand : nat -> R) (ray : Ray) :
  run_ray r T false rand ray = ray_out r T ray.
Proof. reflexivity. Qed.

Lemma map2_run_ray {B : Type} (g : RayOut -> B) (r : NeRFRenderer R) (T : nat)
    (rand : nat -> nat -> R) (rays : list Ray) :
  map2 (fun n ray => g (run_ray r T false (rand n) ray)) (seq 0 (length rays)) rays
  = map (fun x => g (ray_out r T x)) rays.
Proof.
  rewrite <- (map2_seq_ignore (fun x => g (ray_out r T x)) rays 0).
  apply map2_ext_in. intros n ray _. now rewrite run_ray_unperturbed.
Qed.

(** Without jitter [run] maps [ray_out] over the batch. *)
Lemma run_unperturbed (r : NeRFRenderer R) (rays : list Ray) (T : nat)
    (rand : nat -> nat -> R) :
  ~ 0 < bg_radius r -> (0 < length rays)%nat -> (0 < T)%nat ->
  run r rays T 0 None false rand
  = ([QDensity (length rays * T); QColor (length rays * T); QClip (length rays * T)],
     inr (mkResults (map (fun x => ro_depth (ray_out r T x)) rays)
                    (Flat (map (fun x => ro_depth_variance (ray_out r T x)) rays))
                    (map (fun x => mix_background (ray_out r T x)) rays)
                    (map (fun x => ro_coordinates_map (ray_out r T x)) rays)
                    (Some (map (fun x => ro_rgbs (ray_out r T x)) rays))
                    (map (fun x => ro_clip_features (ray_out r T x)) rays))).
Proof.
  intros Hbg HN HT. unfold run. cbn [Z.eqb negb].
  destruct (Nat.eqb_spec (length rays * T) 0) as [E | _]; [nia |].
  destruct (Rlt_dec 0 (bg_radius r)) as [H | _]; [contradiction|].
  cbn [app]. f_equal. f_equal.
  rewrite !map_map2, !map2_run_ray. reflexivity.
Qed.

Lemma run_returns (r : NeRFRenderer R) (rays : list Ray) (T : nat) (upsample_steps : Z)
    (bg_color : option (vec3 R)) (perturb : bool) (rand : nat -> nat -> R)
    (log : list query) (res : Results) :
  run r rays T upsample_steps bg_color perturb rand = (log, inr res) ->
  upsample_steps = 0%Z /\ bg_color = None /\ ~ 0 < bg_radius r
  /\ (0 < length rays)%nat /\ (0 < T)%nat.
Proof.
  unfold run. destruct (Z.eqb_spec upsample_steps 0) as [-> | Hne]; cbn [negb].
  - destruct bg_color; [discriminate|].
    destruct (Nat.eqb_spec (length rays * T) 0) as [E | E]; [discriminate|].
    destruct (Rlt_dec 0 (bg_radius r)); [discriminate|].
    intros _. repeat split; try assumption; nia.
  - discriminate.
Qed.

Lemma slice_length {A : Type} (l : list A) (head tail : nat) :
  length (slice l head tail) = Nat.min (tail - head) (length l - head).
Proof. unfold slice. rewrite length_firstn, length_skipn. reflexivity. Qed.

(** The staged loop, started at [head] on buffers in which the rows before
    [head] are written, ends within [fuel] iterations with every row written. *)
Lemma render_loop_written (r : NeRFRenderer R) (rays : list Ray) (max_ray_batch T : nat)
    (rand : nat -> nat -> nat -> R) (init : Results) :
  ~ 0 < bg_radius r -> (0 < max_ray_batch)%nat -> (0 < T)%nat ->
  length (depth init) = length rays ->
  length (values (depth_variance init)) = length rays ->
  length (image init) = length rays ->
  length (coordinates_map init) = length rays ->
  length (clip_features init) = length rays ->
  forall (fuel head k : nat) (log : list query),
    (length rays <= head + fuel)%nat ->
    exists log',
      render_loop r rays max_ray_batch T 0 None false rand fuel head k log
        (mkResults
           (written (fun x => ro_depth (ray_out r T x)) rays (depth init) head)
           (Batched (written (fun x => ro_depth_variance (ray_out r T x)) rays
                             (values (depth_variance init)) head))
           (written (fun x => mix_background (ray_out r T x)) rays (image init) head)
           (written (fun x => ro_coordinates_map (ray_out r T x)) rays
                    (coordinates_map init) head)
           (rgb init)
           (written (fun x => ro_clip_features (ray_out r T x)) rays
                    (clip_features init) head))
      = Some (log',
              inr (mkResults (map (fun x => ro_depth (ray_out r T x)) rays)
                             (Batched (map (fun x => ro_depth_variance (ray_out r T x))
                                           rays))
                             (map (fun x => mix_background (ray_out r T x)) rays)
                             (map (fun x => ro_coordinates_map (ray_out r T x)) rays)
                             (rgb init)
                             (map (fun x => ro_clip_features (ray_out r T x)) rays))).
Proof.
  intros Hbg Hmrb HT L1 L2 L3 L4 L5.
  induction fuel as [|fuel IH]; intros head k log Hfuel.
  - cbn [render_loop].
    destruct (Nat.ltb_spec head (length rays)) as [Hlt | Hge]; [lia|].
    exists log. rewrite !written_all by (assumption || lia). reflexivity.
  - cbn [render_loop].
    destruct (Nat.ltb_spec head (length rays)) as [Hlt | Hge].
    + rewrite run_unperturbed by (assumption || (rewrite slice_length; lia)).
      unfold write_results, write_variance.
      cbn [depth depth_variance image coordinates_map rgb clip_features values].
      rewrite !write_slice_chunk by assumption.
      apply IH. lia.
    + exists log. rewrite !written_all by (assumption || lia). reflexivity.
Qed.

(** What staged rendering returns when [run] succeeds on every chunk. *)
Lemma render_staged_unperturbed (r : NeRFRenderer R) (rays : list Ray)
    (max_ray_batch T : nat) (rand : nat -> nat -> nat -> R) (garbage : R) (fuel : nat) :
  cuda_ray r = false -> ~ 0 < bg_radius r -> (0 < max_ray_batch)%nat -> (0 < T)%nat ->
  (length rays <= fuel)%nat ->
  exists log',
    render r rays true max_ray_batch T 0 None false rand garbage fuel
    = Some (log',
            inr (mkResults (map (fun x => ro_depth (ray_out r T x)) rays)
                           (Batched (map (fun x => ro_depth_variance (ray_out r T x))
                                         rays))
                           (map (fun x => mix_background (ray_out r T x)) rays)
                           (map (fun x => ro_coordinates_map (ray_out r T x)) rays)
                           None
                           (map (fun x => ro_clip_features (ray_out r T x)) rays))).
Proof.
  intros Hcuda Hbg Hmrb HT Hfuel. unfold render. rewrite Hcuda. cbn [andb negb].
  pose proof (render_loop_written r rays max_ray_batch T rand
                (empty_results r (length rays) garbage) Hbg Hmrb HT) as H.
  unfold empty_results in H.
  cbn [depth depth_variance image coordinates_map rgb clip_features values] in H.
  rewrite !repeat_length in H.
  specialize (H eq_refl eq_refl eq_refl eq_refl eq_refl fuel 0%nat 0%nat []).
  unfold written in H. cbn [firstn skipn map app] in H.
  apply H. lia.
Qed.

(** C5 (at its failing inputs).  Whenever the unstaged call returns a
    result, staged rendering without jitter, with any positive chunk size,
    whether or not it divides the batch, returns within as many iterations as
    there are rays the same depth, image, coordinates map and clip features
    and the same depth variances; but the staged result holds no ['rgb'],
    which the unstaged one has, and its depth variance has the shape [1, N]
    of the buffer where the unstaged one has the shape [N].  On an empty
    batch the unstaged call raises RuntimeError and the staged one returns
    its empty buffers. *)
Theorem staged_result_differs_from_unstaged (r : NeRFRenderer R) (rays : list Ray)
    (max_ray_batch T : nat) (upsample_steps : Z) (bg_color : option (vec3 R))
    (rand rand' : nat -> nat -> nat -> R) (garbage : R) (fuel : nat) :
  cuda_ray r = false -> (0 < max_ray_batch)%nat -> (length rays <= fuel)%nat ->
  (forall log res,
     render r rays false max_ray_batch T upsample_steps bg_color false rand garbage fuel
     = Some (log, inr res) ->
     exists log' variances colors,
       render r rays true max_ray_batch T upsample_steps bg_color false rand' garbage
              fuel
       = Some (log',
               inr (mkResults (depth res) (Batched variances) (image res)
                              (coordinates_map res) None (clip_features res)))
       /\ depth_variance res = Flat variances
       /\ rgb res = Some colors
       /\ length colors = length rays)
  /\ (rays = [] -> upsample_steps = 0%Z -> bg_color = None ->
      render r rays false max_ray_batch T upsample_steps bg_color false rand garbage
             fuel
      = Some ([QDensity 0], inl RuntimeError)
      /\ render r rays true max_ray_batch T upsample_steps bg_color false rand' garbage
                fuel
         = Some ([], inr (mkResults [] (Batched []) [] [] None []))).
Proof.
  intros Hcuda Hmrb Hfuel. split.
  - intros log res Hrun.
    unfold render in Hrun. rewrite Hcuda in Hrun. cbn [andb] in Hrun.
    injection Hrun as Hrun.
    destruct (run_returns _ _ _ _ _ _ _ _ _ Hrun) as (-> & -> & Hbg & HN & HT).
    rewrite run_unperturbed in Hrun by assumption.
    injection Hrun as _ <-.
    cbn [depth depth_variance image coordinates_map rgb clip_features].
    destruct (render_staged_unperturbed r rays max_ray_batch T rand' garbage fuel
                Hcuda Hbg Hmrb HT Hfuel) as [log' Hst].
    exists log'. eexists. eexists.
    split; [exact Hst |]. split; [reflexivity |]. split; [reflexivity |].
    apply length_map.
  - intros -> -> ->. unfold render. rewrite Hcuda. cbn [andb negb]. split.
    + reflexivity.
    + destruct fuel; reflexivity.
Qed.

End CompositorFacts.

(** ** A concrete scene *)

Section Scene.
Local Open Scope R_scope.

(** A field that is empty for [x < 0] and dense for [0 <= x]. *)
Definition scene_field : Field R unit :=
  {| density := fun p => (if Rle_dec 0 (fst (fst p)) then 100 else 0, tt);
     color := fun _ _ _ _ _ => (0, 0, 0);
     clip := fun _ _ => [0] |}.

(** Kernels for the unit box and rays that enter it at 1 and leave it at 3. *)
Definition scene_kernels : Raymarching R :=
  {| near_far_from_aabb := fun _ _ _ _ => (1, 3);
     morton3D := fun c => let '(x, y, z) := c in (x + 2 * y + 4 * z)%nat;
     morton3D_invert := fun i => (i mod 2, (i / 2) mod 2, (i / 4) mod 2)%nat;
     packbits := fun _ _ bits => bits |}.

Definition scene_renderer : NeRFRenderer R :=
  mkRenderer 1 1%Z 128 1 0.2 0.01 (-1)
             ((-1, -1, -1), (1, 1, 1)) ((-1, -1, -1), (1, 1, 1)) true false
             [] [] (Some 0) 0 [] 0%Z 0 1.

Definition scene_ray : Ray := mkRay (-2, 0, 0) (1, 0, 0) 1.

Definition scene_out : RayOut :=
  run_ray (F := scene_field) (K := scene_kernels) scene_renderer 2 false (fun _ => 0)
          scene_ray.














Lemma compositor_formulas_witness :
  length (ro_weights_pre
            (run_ray (F := scene_field) (K := scene_kernels) scene_renderer 2 false
                     (fun _ => 0) scene_ray)) = 2%nat.
Proof.
  apply (compositor_formulas (F := scene_field) (K := scene_kernels)
           scene_renderer 2 false (fun _ => 0) scene_ray).
  apply le_n.
Defined.



Definition scene_rays : list Ray := [scene_ray; scene_ray; scene_ray].

Lemma scene_bg_radius : ~ 0 < bg_radius scene_renderer.
Proof. cbn. lra. Qed.




(** Three rays rendered in chunks of two. *)
Lemma staged_result_differs_from_unstaged_witness :
  exists log log' res res',
    render (F := scene_field) (K := scene_kernels) scene_renderer scene_rays false 2
           2 0 None false (fun _ _ _ => 0) 0 3 = Some (log, inr res)
    /\ render (F := scene_field) (K := scene_kernels) scene_renderer scene_rays true 2
              2 0 None false (fun _ _ _ => 0) 0 3 = Some (log', inr res')
    /\ depth res' = depth res
    /\ image res' = image res
    /\ coordinates_map res' = coordinates_map res
    /\ clip_features res' = clip_features res
    /\ (exists variances,
          depth_variance res = Flat variances /\ depth_variance res' = Batched variances)
    /\ rgb res' = None
    /\ (exists colors, rgb res = Some colors /\ length colors = 3%nat).
Proof.
  assert (Hmrb : (0 < 2)%nat) by apply Nat.lt_0_succ.
  assert (Hfuel : (length scene_rays <= 3)%nat) by apply le_n.
  pose proof (run_unperturbed (F := scene_field) (K := scene_kernels) scene_renderer
                scene_rays 2 (fun _ _ => 0) scene_bg_radius
                (Nat.lt_0_succ 2) Hmrb) as Hrun.
  pose proof (proj1 (staged_result_differs_from_unstaged
                       (F := scene_field) (K := scene_kernels) scene_renderer scene_rays
                       2 2 0 None (fun _ _ _ => 0) (fun _ _ _ => 0) 0 3
                       eq_refl Hmrb Hfuel)) as Hthm.
  destruct (Hthm _ _ (f_equal Some Hrun))
    as (log' & variances & colors & Hst & Hv & Hc & Hl).
  eexists. exists log'. eexists. eexists.
  split; [exact (f_equal Some Hrun) |]. split; [exact Hst |].
  cbn [depth image coordinates_map clip_features depth_variance rgb].
  repeat (split; [reflexivity |]).
  split; [exists variances; split; [exact Hv | reflexivity] |].
  split; [reflexivity |].
  exists colors. split; [exact Hc | exact Hl].
Defined.

(** The scene with a background sphere. *)
Definition scene_renderer_bg : NeRFRenderer R :=
  mkRenderer 1 1%Z 128 1 0.2 0.01 1
             ((-1, -1, -1), (1, 1, 1)) ((-1, -1, -1), (1, 1, 1)) true false
             [] [] (Some 0) 0 [] 0%Z 0 1.

Lemma scene_bg_radius_positive : 0 < bg_radius scene_renderer_bg.
Proof. cbn. lra. Qed.

(** C9 (counterexample).  With a background radius the call does not fail
    before the field is queried: the density and the color of the two samples
    of the ray are queried, then AssertionError is raised. *)
Lemma bg_radius_fails_after_the_queries :
  run (F := scene_field) (K := scene_kernels) scene_renderer_bg [scene_ray] 2 0 None
      false (fun _ _ => 0)
  = ([QDensity 2; QColor 2], inl AssertionError).
Proof.
  unfold run. cbn [Z.eqb negb length Nat.mul Nat.add Nat.eqb].
  destruct (Rlt_dec 0 (bg_radius scene_renderer_bg)) as [_ | H]; [reflexivity |].
  exfalso. apply H. exact scene_bg_radius_positive.
Qed.

Lemma unsupported_configurations_fail_witness :
  run (F := scene_field) (K := scene_kernels) scene_renderer scene_rays 2 64 None false
      (fun _ _ => 0) = ([], inl AssertionError)
  /\ run (F := scene_field) (K := scene_kernels) scene_renderer_bg scene_rays 2 0
         None false (fun _ _ => 0) = ([QDensity 6; QColor 6], inl AssertionError)
  /\ run (F := scene_field) (K := scene_kernels) scene_renderer_bg [] 2 0
         None false (fun _ _ => 0) = ([QDensity 0], inl RuntimeError).
Proof.
  assert (Hup : (64 <> 0)%Z) by discriminate.
  assert (HN : (0 < length scene_rays * 2)%nat) by (cbn; lia).
  assert (H0 : (@length Ray [] * 2 = 0)%nat) by reflexivity.
  split; [| split].
  - exact (proj1 (unsupported_configurations_fail (F := scene_field)
                    (K := scene_kernels) scene_renderer scene_rays 2 64 None false
                    (fun _ _ => 0)) Hup).
  - exact (proj1 (proj2 (proj2 (unsupported_configurations_fail (F := scene_field)
                    (K := scene_kernels) scene_renderer_bg scene_rays 2 0 None false
                    (fun _ _ => 0)))) scene_bg_radius_positive eq_refl eq_refl HN).
  - exact (proj2 (proj2 (proj2 (unsupported_configurations_fail (F := scene_field)
                    (K := scene_kernels) scene_renderer_bg [] 2 0 None false
                    (fun _ _ => 0)))) eq_refl eq_refl H0).
Defined.

End Scene.

(** ** The importance resampler *)

(** The decimal literal of the source, as a fraction. *)
Ltac eps_fraction := change 1e-5%Q with (1 # 100000)%Q in *.

(** Linear arithmetic over the rationals. *)
Ltac qlra := eps_fraction; Lqa.lra.

Lemma expand_same {A : Type} (l : list A) (n : nat) : length l = n -> expand l n = inr l.
Proof. intros <-. unfold expand. rewrite Nat.eqb_refl. reflexivity. Qed.

Section SamplePdfFacts.
Local Open Scope Q_scope.






Lemma cumsum_from_length (acc : Q) (l : list Q) : length (cumsum_from acc l) = length l.
Proof. revert acc; induction l; intros; cbn; auto. Qed.



Lemma gather_nth (row : list Q) (k : nat) :
  (k < length row)%nat -> gather row (Z.of_nat k) = Some (nth k row 0).
Proof.
  intros H. unfold gather.
  destruct (Z.leb_spec 0 (Z.of_nat k)) as [_ | Hn]; [|lia].
  rewrite Nat2Z.id. now apply nth_error_nth'.
Qed.












End SamplePdfFacts.

(** ** The occupancy grid *)

(** *** Loops, indexed reads and indexed writes *)

Lemma bind_inr {A B : Type} (m : error + A) (k : A -> error + B) (b : B) :
  bind m k = inr b -> exists a, m = inr a /\ k a = inr b.
Proof.
  destruct m as [e | a]; simpl; [discriminate |].
  intros H. exists a. split; [reflexivity | exact H].
Qed.

(** A property every iteration keeps holds when the loop ends. *)
Lemma foldM_preserves {A S : Type} (P : S -> Prop) (body : S -> A -> error + S)
    (l : list A) (s s' : S) :
  foldM body l s = inr s' ->
  P s ->
  (forall s x s', P s -> body s x = inr s' -> P s') ->
  P s'.
Proof.
  intros Hf HP Hstep. revert s Hf HP.
  induction l as [| x t IH]; simpl; intros s Hf HP.
  - injection Hf as <-. exact HP.
  - apply bind_inr in Hf. destruct Hf as (s1 & Hb & Hf).
    exact (IH s1 Hf (Hstep s x s1 HP Hb)).
Qed.

(** Carries an invariant [P] through the loop of a hypothesis. *)
Ltac loop_invariant P :=
  match goal with
  | H : foldM _ _ _ = inr _ |- _ =>
    apply (foldM_preserves P _ _ _ _ H); [assumption |]; clear H; intros ? ? ? ? H
  end.

(** A loop whose iterations each establish facts, and keep the facts
    established before them, ends with the facts of all its iterations. *)
Lemma foldM_accumulate {A S E : Type} (I : (E -> Prop) -> S -> Prop)
    (cover : A -> E -> Prop) (body : S -> A -> error + S) (l : list A) :
  (forall (W W' : E -> Prop) s, (forall e, W' e -> W e) -> I W s -> I W' s) ->
  (forall W s x, In x l -> I W s ->
     exists s', body s x = inr s' /\ I (fun e => W e \/ cover x e) s') ->
  forall W s, I W s ->
    exists s', foldM body l s = inr s'
               /\ I (fun e => W e \/ exists x, In x l /\ cover x e) s'.
Proof.
  intros Hmono. induction l as [| a t IH]; intros Hstep W s HI.
  - exists s. split; [reflexivity |].
    apply (Hmono W); [| exact HI].
    intros e [He | (x & [] & _)]. exact He.
  - destruct (Hstep W s a (or_introl eq_refl) HI) as (s1 & Hb & HI1).
    destruct (IH (fun W s x Hin => Hstep W s x (or_intror Hin)) _ s1 HI1)
      as (s' & Hf & HI').
    exists s'. split.
    + simpl. rewrite Hb. exact Hf.
    + refine (Hmono _ _ s' _ HI').
      intros e [He | (x & [Hx | Hx] & Hc)].
      * left. left. exact He.
      * subst x. left. right. exact Hc.
      * right. exists x. split; assumption.
Qed.

Lemma nth_error_map2 {A B C : Type} (f : A -> B -> C) (l : list A) (l' : list B) (i : nat) :
  nth_error (map2 f l l') i =
  match nth_error l i, nth_error l' i with
  | Some a, Some b => Some (f a b)
  | _, _ => None
  end.
Proof.
  revert l' i. induction l as [| a t IH]; intros [| b t'] [| i]; simpl; try reflexivity.
  - destruct (nth_error t i); reflexivity.
  - apply IH.
Qed.

Lemma set_nth_split {A : Type} (l1 l2 : list A) (a v : A) :
  set_nth (length l1) v (l1 ++ a :: l2) = l1 ++ v :: l2.
Proof.
  unfold set_nth.
  rewrite firstn_app, firstn_all, Nat.sub_diag, firstn_O, app_nil_r.
  rewrite skipn_app, skipn_all2 by lia.
  replace (S (length l1) - length l1)%nat with 1%nat by lia.
  reflexivity.
Qed.

Lemma set_nth_length {A : Type} (i : nat) (v : A) (l : list A) :
  (i < length l)%nat -> length (set_nth i v l) = length l.
Proof.
  intros Hi. unfold set_nth.
  rewrite length_app, length_firstn. cbn [length]. rewrite length_skipn. lia.
Qed.

Lemma nth_error_set_nth_eq {A : Type} (i : nat) (v : A) (l : list A) :
  (i < length l)%nat -> nth_error (set_nth i v l) i = Some v.
Proof.
  intros Hi. unfold set_nth.
  rewrite nth_error_app2 by (rewrite length_firstn; lia).
  rewrite length_firstn. replace (i - Nat.min i (length l))%nat with 0%nat by lia.
  reflexivity.
Qed.

Lemma nth_error_set_nth_neq {A : Type} (i j : nat) (v : A) (l : list A) :
  (i < length l)%nat -> i <> j -> nth_error (set_nth i v l) j = nth_error l j.
Proof.
  intros Hi Hij.
  destruct (nth_error l i) as [a |] eqn:Ha.
  2:{ apply nth_error_None in Ha. lia. }
  destruct (nth_error_split l i Ha) as (l1 & l2 & -> & <-).
  rewrite set_nth_split.
  destruct (Nat.lt_ge_cases j (length l1)) as [Hj | Hj].
  - rewrite !nth_error_app1 by assumption. reflexivity.
  - rewrite !nth_error_app2 by assumption.
    destruct (j - length l1)%nat as [| k] eqn:Hk; [lia | reflexivity].
Qed.

Lemma lookup_inr {A : Type} (l : list A) (i : nat) (v : A) :
  lookup l i = inr v -> nth_error l i = Some v.
Proof.
  unfold lookup. destruct (nth_error l i); [| discriminate].
  intros H. injection H as ->. reflexivity.
Qed.

Lemma index_put_length {A : Type} (indices : list nat) (vals row row' : list A) :
  index_put row indices vals = inr row' -> length row' = length row.
Proof.
  revert vals row. induction indices as [| i it IH]; intros vals row H.
  - simpl in H. injection H as <-. reflexivity.
  - destruct vals as [| v vt]; simpl in H.
    + injection H as <-. reflexivity.
    + destruct (i <? length row)%nat eqn:Hi; [| discriminate].
      apply Nat.ltb_lt in Hi.
      rewrite (IH _ _ H). apply set_nth_length. exact Hi.
Qed.

(** Replacing a row by one of the same length keeps the shape of a grid. *)
Lemma set_row_shape {A : Type} (grid : list (list A)) (cas : nat) (row row' : list A) :
  nth_error grid cas = Some row -> length row' = length row ->
  map (@length A) (set_nth cas row' grid) = map (@length A) grid.
Proof.
  intros Hrow Hlen.
  destruct (nth_error_split grid cas Hrow) as (l1 & l2 & -> & <-).
  rewrite set_nth_split, !map_app. simpl. rewrite Hlen. reflexivity.
Qed.

Lemma put_row_shape {A : Type} (grid : list (list A)) (cas : nat) (indices : list nat)
    (vals : list A) (grid' : list (list A)) :
  put_row grid cas indices vals = inr grid' ->
  map (@length A) grid' = map (@length A) grid.
Proof.
  unfold put_row. intros H.
  apply bind_inr in H. destruct H as (row & Hrow & H).
  apply bind_inr in H. destruct H as (row' & Hput & H).
  injection H as <-.
  apply (set_row_shape grid cas row row' (lookup_inr _ _ _ Hrow)).
  exact (index_put_length _ _ _ _ Hput).
Qed.

(** Rows of equal shape combine cell by cell without truncation. *)
Lemma map2_rows_shape {A B C : Type} (f : list A -> list B -> list C)
    (g : list (list A)) (t : list (list B)) :
  (forall a b, length a = length b -> length (f a b) = length a) ->
  map (@length B) t = map (@length A) g ->
  map (@length C) (map2 f g t) = map (@length A) g.
Proof.
  intros Hf. revert t. induction g as [| a g IH]; intros [| b t] H; simpl in *;
    try reflexivity; try discriminate.
  injection H as Hab H. rewrite (IH t H), Hf by (symmetry; exact Hab). reflexivity.
Qed.

(** A cell of a grid of the same shape exists wherever the grid has one. *)
Lemma same_shape_row {A B : Type} (g : list (list A)) (t : list (list B)) (cas : nat)
    (row : list A) :
  map (@length B) t = map (@length A) g -> nth_error g cas = Some row ->
  exists trow, nth_error t cas = Some trow /\ length trow = length row.
Proof.
  intros Hs Hrow.
  assert (H : nth_error (map (@length B) t) cas = Some (length row)).
  { rewrite Hs. apply map_nth_error. exact Hrow. }
  rewrite nth_error_map in H.
  destruct (nth_error t cas) as [trow |]; [| discriminate].
  injection H as H. exists trow. split; [reflexivity | exact H].
Qed.

Section OccupancyFacts.
Local Open Scope Q_scope.
Context {feat : Type} {F : Field Q feat} {K : Raymarching Q}.

(** [grid[cas, i]], where the grid has such a cell. *)
Definition cell (grid : list (list Q)) (cas i : nat) : option Q :=
  match nth_error grid cas with
  | Some row => nth_error row i
  | None => None
  end.

(** *** Without [cuda_ray] *)

Lemma maintenance_without_cuda_ray (r : NeRFRenderer Q) :
  cuda_ray r = false ->
  (forall poses intrinsic S, mark_untrained_grid r poses intrinsic S = inr r)
  /\ (forall decay S dr, update_extra_state r decay S dr = inr r)
  /\ reset_extra_state r = r.
Proof.
  intros Hc. unfold mark_untrained_grid, update_extra_state, reset_extra_state.
  rewrite Hc. simpl. repeat split.
Qed.

(** C10: a renderer constructed with [cuda_ray = False] is left as it is by
    [mark_untrained_grid], [update_extra_state] and [reset_extra_state],
    whatever their arguments, and none of them raises. *)
Theorem maintenance_is_inert_without_cuda_ray
    (b ds mn dt bgr : Q) (dim : nat) (r : NeRFRenderer Q) :
  init b false ds mn dt bgr dim = inr r ->
  (forall poses intrinsic S, mark_untrained_grid r poses intrinsic S = inr r)
  /\ (forall decay S dr, update_extra_state r decay S dr = inr r)
  /\ reset_extra_state r = r.
Proof.
  unfold init. destruct (Qle_bool b 0); [discriminate |].
  intros H. injection H as <-.
  apply maintenance_without_cuda_ray. reflexivity.
Qed.

(** *** The ema update *)

Lemma ema_row_cell (decay : Q) (old tmp : list Q) (i : nat) :
  nth_error (ema_row decay old tmp) i =
  match nth_error old i, nth_error tmp i with
  | Some o, Some t => Some (if Qle_bool 0 o && Qle_bool 0 t then Qmax (o * decay) t else o)
  | _, _ => None
  end.
Proof.
  unfold ema_row. apply nth_error_map2.
Qed.

Lemma ema_row_length (decay : Q) (old tmp : list Q) :
  length old = length tmp -> length (ema_row decay old tmp) = length old.
Proof.
  intros H. unfold ema_row. rewrite map2_length, H. apply Nat.min_id.
Qed.

Lemma full_update_shape (r : NeRFRenderer Q) (dr : Draws) (S : nat)
    (tmp0 tmp : list (list Q)) :
  full_update r dr S tmp0 = inr tmp -> map (@length Q) tmp = map (@length Q) tmp0.
Proof.
  unfold full_update. destruct (S =? 0)%nat; [discriminate |].
  set (P := fun t : list (list Q) => map (@length Q) t = map (@length Q) tmp0).
  assert (H0 : P tmp0) by reflexivity. intros H.
  change (P tmp).
  do 4 loop_invariant P.
  unfold P in *. rewrite (put_row_shape _ _ _ _ _ H). assumption.
Qed.

Lemma partial_update_shape (r : NeRFRenderer Q) (dr : Draws) (tmp0 tmp : list (list Q)) :
  partial_update r dr tmp0 = inr tmp -> map (@length Q) tmp = map (@length Q) tmp0.
Proof.
  unfold partial_update.
  set (P := fun t : list (list Q) => map (@length Q) t = map (@length Q) tmp0).
  assert (H0 : P tmp0) by reflexivity. intros H.
  change (P tmp).
  loop_invariant P.
  apply bind_inr in H. destruct H as ([indices coords] & _ & H).
  unfold P in *. rewrite (put_row_shape _ _ _ _ _ H). assumption.
Qed.

Lemma sampled_grid_shape (r : NeRFRenderer Q) (dr : Draws) (S : nat) (tmp : list (list Q)) :
  sampled_grid r dr S = inr tmp ->
  map (@length Q) tmp = map (@length Q) (density_grid r).
Proof.
  unfold sampled_grid. intros H.
  assert (Hs : map (@length Q) tmp
               = map (@length Q) (map (map (fun _ : Q => - (1))) (density_grid r))).
  { destruct (iter_density r <? 16)%nat.
    - exact (full_update_shape _ _ _ _ _ H).
    - exact (partial_update_shape _ _ _ _ H). }
  rewrite Hs, map_map. apply map_ext. intros row. apply length_map.
Qed.

(** What one successful call with [cuda_ray] leaves behind. *)
Lemma update_extra_state_inr (r : NeRFRenderer Q) (decay : Q) (S : nat) (dr : Draws)
    (r' : NeRFRenderer Q) :
  cuda_ray r = true ->
  update_extra_state r decay S dr = inr r' ->
  exists tmp, sampled_grid r dr S = inr tmp
    /\ density_grid r' = map2 (ema_row decay) (density_grid r) tmp
    /\ iter_density r' = Datatypes.S (iter_density r)
    /\ cuda_ray r' = true /\ grid_size r' = grid_size r /\ cascade r' = cascade r.
Proof.
  intros Hc. unfold update_extra_state. rewrite Hc. simpl. intros H.
  apply bind_inr in H. destruct H as (tmp & Htmp & H).
  injection H as <-. exists tmp. simpl. repeat split; assumption.
Qed.

Lemma update_keeps_excluded (r : NeRFRenderer Q) (decay : Q) (S : nat) (dr : Draws)
    (r' : NeRFRenderer Q) (cas i : nat) :
  update_extra_state r decay S dr = inr r' ->
  cell (density_grid r) cas i = Some (- (1)) ->
  cell (density_grid r') cas i = Some (- (1)).
Proof.
  intros Hu Hcell.
  destruct (cuda_ray r) eqn:Hc.
  2:{ destruct (maintenance_without_cuda_ray r Hc) as (_ & Hid & _).
      rewrite Hid in Hu. injection Hu as <-. exact Hcell. }
  destruct (update_extra_state_inr _ _ _ _ _ Hc Hu) as (tmp & Htmp & Hg & _).
  apply sampled_grid_shape in Htmp.
  unfold cell in *. rewrite Hg, nth_error_map2.
  destruct (nth_error (density_grid r) cas) as [row |] eqn:Hrow; [| discriminate].
  destruct (same_shape_row _ _ _ _ Htmp Hrow) as (trow & -> & Hlen).
  rewrite ema_row_cell, Hcell.
  destruct (nth_error trow i) as [t |] eqn:Ht; [reflexivity |].
  apply nth_error_None in Ht.
  assert (Hi : (i < length row)%nat) by (apply nth_error_Some; congruence).
  lia.
Qed.

(** A series of refresh calls, each with its own arguments and draws. *)
Definition refreshes (calls : list (Q * nat * Draws)) (r : NeRFRenderer Q)
    : error + NeRFRenderer Q :=
  foldM (fun r c => update_extra_state r (fst (fst c)) (snd (fst c)) (snd c)) calls r.

(** Visibility marking leaves a cell as it was or excludes it. *)
Lemma mark_untrained_grid_cell (r : NeRFRenderer Q) (poses : list Pose)
    (intrinsic : Q * Q * Q * Q) (S : nat) (r1 : NeRFRenderer Q) (cas i : nat) (v : Q) :
  mark_untrained_grid r poses intrinsic S = inr r1 ->
  cell (density_grid r1) cas i = Some v ->
  v = - (1) \/ cell (density_grid r) cas i = Some v.
Proof.
  unfold mark_untrained_grid.
  destruct (cuda_ray r); simpl.
  2:{ intros H. injection H as <-. right. assumption. }
  destruct (S =? 0)%nat; [discriminate |].
  intros H. apply bind_inr in H. destruct H as (count & _ & H).
  injection H as <-. unfold cell. simpl.
  rewrite nth_error_map2.
  destruct (nth_error (density_grid r) cas) as [row |]; [| discriminate].
  destruct (nth_error count cas) as [crow |]; [| discriminate].
  rewrite nth_error_map2.
  destruct (nth_error row i) as [d |]; [| discriminate].
  destruct (nth_error crow i) as [c |]; [| discriminate].
  intros H. injection H as <-.
  destruct (c =? 0)%nat; [left | right]; reflexivity.
Qed.

(** C2: the ema refresh changes a cell only where the old and the sampled
    value are both non-negative, to [max (old * decay) sample]; visibility
    marking leaves a cell as it was or sets it to -1, and a cell that is -1
    after it is -1 after any series of refresh calls; on the example the
    result is [-1, 5, -1, 7]. *)
Theorem excluded_cells_stay_excluded
    (r : NeRFRenderer Q) (poses : list Pose) (intrinsic : Q * Q * Q * Q) (S : nat)
    (r1 : NeRFRenderer Q) (calls : list (Q * nat * Draws)) (r' : NeRFRenderer Q)
    (cas i : nat) :
  mark_untrained_grid r poses intrinsic S = inr r1 ->
  cell (density_grid r1) cas i = Some (- (1)) ->
  refreshes calls r1 = inr r' ->
  cell (density_grid r') cas i = Some (- (1))
  /\ (forall cas' j v, cell (density_grid r1) cas' j = Some v ->
        v = - (1) \/ cell (density_grid r) cas' j = Some v)
  /\ (forall q decay S' dr q', cuda_ray q = true ->
        update_extra_state q decay S' dr = inr q' ->
        exists tmp, sampled_grid q dr S' = inr tmp
          /\ density_grid q' = map2 (ema_row decay) (density_grid q) tmp)
  /\ (forall decay old tmp j,
        nth_error (ema_row decay old tmp) j =
        match nth_error old j, nth_error tmp j with
        | Some o, Some t =>
          Some (if Qle_bool 0 o && Qle_bool 0 t then Qmax (o * decay) t else o)
        | _, _ => None
        end)
  /\ ema_row 0.95 [- (1); 5; - (1); 3] [- (1); - (1); 4; 7] = [- (1); 5; - (1); 7].
Proof.
  intros Hmark Hcell Hcalls. split; [| split; [| split; [| split]]].
  - unfold refreshes in Hcalls.
    apply (foldM_preserves (fun q => cell (density_grid q) cas i = Some (- (1)))
             _ _ _ _ Hcalls Hcell).
    intros q c q' Hq Hu. exact (update_keeps_excluded _ _ _ _ _ _ _ Hu Hq).
  - intros cas' j v. apply (mark_untrained_grid_cell _ _ _ _ _ _ _ _ Hmark).
  - intros q decay S' dr q' Hc Hu.
    destruct (update_extra_state_inr _ _ _ _ _ Hc Hu) as (tmp & Htmp & Hg & _).
    exists tmp. split; assumption.
  - apply ema_row_cell.
  - reflexivity.
Qed.

End OccupancyFacts.

(** *** The refresh schedule *)

Lemma split_fuel_concat {A : Type} (fuel S : nat) (l : list A) :
  (0 < S)%nat -> (length l <= fuel)%nat -> concat (split_fuel fuel S l) = l.
Proof.
  intros HS. revert l. induction fuel as [| fuel IH]; intros l Hl.
  - destruct l; [reflexivity | simpl in Hl; lia].
  - destruct l as [| a t]; [reflexivity |].
    change (split_fuel (Datatypes.S fuel) S (a :: t))
      with (firstn S (a :: t) :: split_fuel fuel S (skipn S (a :: t))).
    cbn [concat]. rewrite IH.
    + apply firstn_skipn.
    + rewrite length_skipn. cbn [length] in *. lia.
Qed.

(** The chunks of [t.split(S)] hold the entries of [t], and no others. *)
Lemma split_covers {A : Type} (S : nat) (l : list A) (x : A) :
  (0 < S)%nat -> (In x l <-> exists chunk, In chunk (split S l) /\ In x chunk).
Proof.
  intros HS. rewrite <- in_concat. unfold split.
  rewrite split_fuel_concat by (auto; lia). reflexivity.
Qed.

Lemma in_meshgrid (xs ys zs : list nat) (x y z : nat) :
  In (x, y, z) (meshgrid xs ys zs) <-> In x xs /\ In y ys /\ In z zs.
Proof.
  unfold meshgrid. rewrite in_flat_map. split.
  - intros (x' & Hx & H). apply in_flat_map in H. destruct H as (y' & Hy & H).
    apply in_map_iff in H. destruct H as (z' & Heq & Hz).
    injection Heq as -> -> ->. auto.
  - intros (Hx & Hy & Hz). exists x. split; [assumption |].
    apply in_flat_map. exists y. split; [assumption |].
    apply in_map_iff. exists z. auto.
Qed.

(** Writing [f c] at index [g c] for every [c] of a list, in order: every
    written index holds the value of its entry, provided entries that share
    an index share the value. *)
Lemma index_put_map {A B : Type} (g : B -> nat) (f : B -> A) (cs : list B) (row : list A) :
  (forall c, In c cs -> (g c < length row)%nat) ->
  (forall c c', In c cs -> In c' cs -> g c = g c' -> f c = f c') ->
  exists row', index_put row (map g cs) (map f cs) = inr row'
    /\ length row' = length row
    /\ (forall c, In c cs -> nth_error row' (g c) = Some (f c))
    /\ (forall j, ~ In j (map g cs) -> nth_error row' j = nth_error row j).
Proof.
  revert row. induction cs as [| a cs IH]; intros row Hlt Hinj.
  - exists row. simpl. repeat split; auto. intros c [].
  - assert (Ha : (g a < length row)%nat) by (apply Hlt; left; reflexivity).
    destruct (IH (set_nth (g a) (f a) row)) as (row' & Hput & Hlen & Hin & Hout).
    + intros c Hc. rewrite set_nth_length by exact Ha. apply Hlt. right; exact Hc.
    + intros c c' Hc Hc'. apply Hinj; right; assumption.
    + exists row'. cbn [map index_put].
      destruct (Nat.ltb_spec (g a) (length row)) as [_ | Hge]; [| lia].
      split; [exact Hput |].
      split; [rewrite Hlen; apply set_nth_length; exact Ha |]. split.
      * intros c [Hc | Hc]; [subst c | apply Hin; exact Hc].
        destruct (in_dec Nat.eq_dec (g a) (map g cs)) as [Hi | Hi].
        -- apply in_map_iff in Hi. destruct Hi as (c' & Hg & Hc').
           rewrite <- Hg, (Hin c' Hc'). f_equal.
           apply Hinj; [right; exact Hc' | left; reflexivity | exact Hg].
        -- rewrite (Hout _ Hi). apply nth_error_set_nth_eq. exact Ha.
      * intros j Hj. rewrite Hout by (intros Hi; apply Hj; right; exact Hi).
        apply nth_error_set_nth_neq; [exact Ha |].
        intros Heq. apply Hj. left. exact Heq.
Qed.

Lemma randint_inr (high : nat) (raw l : list nat) :
  randint high raw = inr l -> high <> 0%nat /\ l = map (fun x => x mod high)%nat raw.
Proof.
  unfold randint. destruct (Nat.eqb_spec high 0); [discriminate |].
  intros H. injection H as <-. split; [assumption | reflexivity].
Qed.

Lemma nonzero_from (mask : list bool) (a i : nat) :
  In i (map fst (filter snd (combine (seq a (length mask)) mask))) ->
  (a <= i)%nat /\ nth_error mask (i - a) = Some true.
Proof.
  revert a. induction mask as [| b mask IH]; intros a H; [contradiction |].
  cbn [length seq combine filter] in H.
  assert (Hrec : In i (map fst (filter snd (combine (seq (S a) (length mask)) mask))) ->
                 (a <= i)%nat /\ nth_error (b :: mask) (i - a) = Some true).
  { intros Hi. destruct (IH _ Hi) as [Hle Hn]. split; [lia |].
    replace (i - a)%nat with (S (i - S a)) by lia. exact Hn. }
  destruct b; cbn [snd map fst] in H.
  - destruct H as [<- | H]; [| exact (Hrec H)].
    split; [lia |]. rewrite Nat.sub_diag. reflexivity.
  - exact (Hrec H).
Qed.

Lemma nonzero_in (mask : list bool) (i : nat) :
  In i (nonzero mask) -> nth_error mask i = Some true.
Proof.
  intros H. destruct (nonzero_from mask 0 i H) as [_ Hn].
  rewrite Nat.sub_0_r in Hn. exact Hn.
Qed.

Lemma index_get_inr {A : Type} (row : list A) (indices : list nat) (out : list A) :
  index_get row indices = inr out ->
  length out = length indices /\ forall v, In v out -> In v row.
Proof.
  unfold index_get. revert out.
  induction indices as [| i it IH]; intros out H; cbn [map sequence] in H.
  - injection H as <-. split; [reflexivity | intros v []].
  - destruct (lookup row i) as [e | v] eqn:Hv; [discriminate |].
    destruct (sequence (map (lookup row) it)) as [e | t'] eqn:Ht; [discriminate |].
    injection H as <-. destruct (IH t' eq_refl) as [Hlen Hin].
    split; [simpl; rewrite Hlen; reflexivity |].
    intros w [<- | Hw]; [| exact (Hin w Hw)].
    exact (nth_error_In _ _ (lookup_inr _ _ _ Hv)).
Qed.

Section RefreshSchedule.
Local Open Scope Q_scope.
Context {feat : Type} {F : Field Q feat} {K : Raymarching Q}.

(** A coordinate triple of the grid. *)
Definition in_cube (gs : nat) (c : nat * nat * nat) : Prop :=
  (fst (fst c) < gs /\ snd (fst c) < gs /\ snd c < gs)%nat.

(** [morton3D] numbers the cells of the grid, and [morton3D_invert] undoes it. *)
Definition morton_bijection (gs : nat) : Prop :=
  (forall c, in_cube gs c ->
     (morton3D c < gs ^ 3)%nat /\ morton3D_invert (morton3D c) = c)
  /\ (forall i, (i < gs ^ 3)%nat ->
        in_cube gs (morton3D_invert i) /\ morton3D (morton3D_invert i) = i).

(** A grid of shape [cascade, grid_size ** 3]. *)
Definition grid_shape (r : NeRFRenderer Q) (grid : list (list Q)) : Prop :=
  map (@length Q) grid = repeat (grid_size r ^ 3)%nat (Z.to_nat (cascade r)).

(** The density the full update samples for a cell. *)
Definition sweep_value (r : NeRFRenderer Q) (dr : Draws) (cas : nat) (c : nat * nat * nat)
    : Q :=
  sample_cell r cas (rand_like_full dr cas c) c.

(** The cells [W] of the sampled grid hold their sweep value. *)
Definition swept (r : NeRFRenderer Q) (dr : Draws) (W : nat * (nat * nat * nat) -> Prop)
    (tmp : list (list Q)) : Prop :=
  grid_shape r tmp
  /\ forall cas c, W (cas, c) -> in_cube (grid_size r) c ->
       cell tmp cas (morton3D c) = Some (sweep_value r dr cas c).

Lemma swept_mono (r : NeRFRenderer Q) (dr : Draws)
    (W W' : nat * (nat * nat * nat) -> Prop) (tmp : list (list Q)) :
  (forall e, W' e -> W e) -> swept r dr W tmp -> swept r dr W' tmp.
Proof.
  intros Hsub [Hshape Hfacts]. split; [exact Hshape |].
  intros cas c HW. apply Hfacts. apply Hsub. exact HW.
Qed.

Lemma grid_shape_row (r : NeRFRenderer Q) (grid : list (list Q)) (cas : nat) :
  grid_shape r grid -> (cas < Z.to_nat (cascade r))%nat ->
  exists row, nth_error grid cas = Some row /\ length row = (grid_size r ^ 3)%nat.
Proof.
  unfold grid_shape. intros Hs Hcas.
  assert (H : nth_error (map (@length Q) grid) cas = Some (grid_size r ^ 3)%nat).
  { rewrite Hs. apply nth_error_repeat. exact Hcas. }
  rewrite nth_error_map in H.
  destruct (nth_error grid cas) as [row |]; [| discriminate].
  injection H as H. exists row. split; [reflexivity | exact H].
Qed.

Lemma morton3D_injective (gs : nat) (c c' : nat * nat * nat) :
  morton_bijection gs -> in_cube gs c -> in_cube gs c' ->
  morton3D c = morton3D c' -> c = c'.
Proof.
  intros [Hb _] Hc Hc' Heq.
  rewrite <- (proj2 (Hb c Hc)), Heq. exact (proj2 (Hb c' Hc')).
Qed.

(** One assignment [tmp_grid[cas, indices] = sigmas] of the full update. *)
Lemma put_row_sweeps (r : NeRFRenderer Q) (dr : Draws)
    (W : nat * (nat * nat * nat) -> Prop) (tmp : list (list Q)) (cas : nat)
    (cs : list (nat * nat * nat)) :
  morton_bijection (grid_size r) ->
  (cas < Z.to_nat (cascade r))%nat ->
  (forall c, In c cs -> in_cube (grid_size r) c) ->
  swept r dr W tmp ->
  exists tmp',
    put_row tmp cas (map morton3D cs)
            (map (fun c => sample_cell r cas (rand_like_full dr cas c) c) cs) = inr tmp'
    /\ swept r dr (fun e => W e \/ (fst e = cas /\ In (snd e) cs)) tmp'.
Proof.
  intros Hbij Hcas Hcs [Hshape Hfacts].
  destruct (grid_shape_row r tmp cas Hshape Hcas) as (row & Hrow & Hlen).
  destruct (index_put_map morton3D (sweep_value r dr cas) cs row)
    as (row' & Hput & Hlen' & Hin & Hout).
  { intros c Hc. rewrite Hlen. apply Hbij. apply Hcs. exact Hc. }
  { intros c c' Hc Hc' Hg. f_equal.
    exact (morton3D_injective _ c c' Hbij (Hcs c Hc) (Hcs c' Hc') Hg). }
  assert (Hlt : (cas < length tmp)%nat) by (apply nth_error_Some; congruence).
  exists (set_nth cas row' tmp). split.
  - unfold put_row, lookup. rewrite Hrow. cbn [bind].
    unfold sweep_value in Hput. rewrite Hput. reflexivity.
  - split.
    + unfold grid_shape. rewrite (set_row_shape tmp cas row row' Hrow Hlen'). exact Hshape.
    + intros cas' c' HW Hc'. unfold cell.
      destruct (Nat.eq_dec cas cas') as [<- | Hne].
      * rewrite nth_error_set_nth_eq by exact Hlt.
        destruct (in_dec Nat.eq_dec (morton3D c') (map morton3D cs)) as [Hi | Hi].
        -- apply in_map_iff in Hi. destruct Hi as (c & Hg & Hc).
           rewrite <- (morton3D_injective _ c c' Hbij (Hcs c Hc) Hc' Hg).
           apply Hin. exact Hc.
        -- destruct HW as [HW | [_ HW]].
           ++ rewrite Hout by exact Hi.
              specialize (Hfacts cas c' HW Hc'). unfold cell in Hfacts.
              rewrite Hrow in Hfacts. exact Hfacts.
           ++ exfalso. apply Hi. apply in_map. exact HW.
      * rewrite nth_error_set_nth_neq by assumption.
        destruct HW as [HW | [Heq _]]; [| simpl in Heq; congruence].
        exact (Hfacts cas' c' HW Hc').
Qed.

(** The full update assigns every cell of every cascade. *)
Lemma full_update_sweeps (r : NeRFRenderer Q) (dr : Draws) (S : nat)
    (tmp0 : list (list Q)) :
  morton_bijection (grid_size r) -> (0 < S)%nat -> grid_shape r tmp0 ->
  exists tmp, full_update r dr S tmp0 = inr tmp
    /\ grid_shape r tmp
    /\ forall cas c, (cas < Z.to_nat (cascade r))%nat -> in_cube (grid_size r) c ->
         cell tmp cas (morton3D c) = Some (sweep_value r dr cas c).
Proof.
  intros Hbij HS Hshape. unfold full_update.
  destruct (Nat.eqb_spec S 0) as [-> | _]; [lia |].
  set (L := split S (seq 0 (grid_size r))).
  set (C := seq 0 (Z.to_nat (cascade r))).
  assert (Hrange : forall chunk, In chunk L -> forall x, In x chunk -> (x < grid_size r)%nat).
  { intros chunk Hchunk x Hx.
    assert (Hin : In x (seq 0 (grid_size r))).
    { apply (split_covers S _ x HS). exists chunk. split; assumption. }
    apply in_seq in Hin. lia. }
  match goal with
  | |- exists tmp, foldM ?body L tmp0 = inr tmp /\ _ =>
    destruct (foldM_accumulate (swept r dr)
                (fun xs e => exists ys, In ys L /\ exists zs, In zs L /\
                   exists cas, In cas C /\ (fst e = cas /\ In (snd e) (meshgrid xs ys zs)))
                body L (swept_mono r dr)) with (W := fun _ : nat * (nat * nat * nat) => False)
                (s := tmp0) as (tmp & Hf & Hsw)
  end.
  - intros W s xs Hxs HI.
    apply (foldM_accumulate (swept r dr)
             (fun ys e => exists zs, In zs L /\
                exists cas, In cas C /\ (fst e = cas /\ In (snd e) (meshgrid xs ys zs)))
             _ L (swept_mono r dr)); [| exact HI].
    intros W1 s1 ys Hys HI1.
    apply (foldM_accumulate (swept r dr)
             (fun zs e =>
                exists cas, In cas C /\ (fst e = cas /\ In (snd e) (meshgrid xs ys zs)))
             _ L (swept_mono r dr)); [| exact HI1].
    intros W2 s2 zs Hzs HI2.
    apply (foldM_accumulate (swept r dr)
             (fun cas e => fst e = cas /\ In (snd e) (meshgrid xs ys zs))
             _ C (swept_mono r dr)); [| exact HI2].
    intros W3 s3 cas Hcas HI3.
    apply put_row_sweeps; [exact Hbij | | | exact HI3].
    + apply in_seq in Hcas. lia.
    + intros [[x y] z] Hc. apply in_meshgrid in Hc. destruct Hc as (Hx & Hy & Hz).
      unfold in_cube. simpl.
      repeat split;
        [apply (Hrange xs Hxs) | apply (Hrange ys Hys) | apply (Hrange zs Hzs)];
        assumption.
  - split; [exact Hshape | intros cas c []].
  - exists tmp. split; [exact Hf |]. destruct Hsw as [Hshape' Hfacts].
    split; [exact Hshape' |].
    intros cas [[x y] z] Hcas Hc. apply Hfacts; [| exact Hc].
    destruct Hc as (Hx & Hy & Hz). simpl in Hx, Hy, Hz.
    assert (Hchunk : forall x, (x < grid_size r)%nat -> exists chunk, In chunk L /\ In x chunk).
    { intros x' Hx'. apply (split_covers S _ x' HS). apply in_seq. lia. }
    destruct (Hchunk x Hx) as (xs & Hxs & Hxin).
    destruct (Hchunk y Hy) as (ys & Hys & Hyin).
    destruct (Hchunk z Hz) as (zs & Hzs & Hzin).
    right. exists xs. split; [exact Hxs |]. exists ys. split; [exact Hys |].
    exists zs. split; [exact Hzs |]. exists cas. split; [apply in_seq; lia |].
    split; [reflexivity |]. apply in_meshgrid. auto.
Qed.

Lemma Qltb_lt (a b : Q) : Qltb a b = true -> a < b.
Proof.
  unfold Qltb. intros H. apply negb_true_iff in H.
  apply Qnot_le_lt. intros Hle. apply Qle_bool_iff in Hle. congruence.
Qed.

(** The cells one cascade of the partial update samples. *)
Lemma partial_cells_inr (r : NeRFRenderer Q) (dr : Draws) (cas : nat)
    (indices : list nat) (coords : list (nat * nat * nat)) :
  partial_cells r dr cas = inr (indices, coords) ->
  exists rnd occ,
    indices = map morton3D rnd ++ occ
    /\ coords = rnd ++ map morton3D_invert occ
    /\ length rnd = (grid_size r ^ 3 / 4)%nat
    /\ length occ = (grid_size r ^ 3 / 4)%nat
    /\ (forall c, In c rnd -> in_cube (grid_size r) c)
    /\ (forall i, In i occ -> exists d, cell (density_grid r) cas i = Some d /\ 0 < d).
Proof.
  unfold partial_cells. intros H.
  apply bind_inr in H. destruct H as (xs & Hxs & H).
  apply bind_inr in H. destruct H as (ys & Hys & H).
  apply bind_inr in H. destruct H as (zs & Hzs & H).
  apply bind_inr in H. destruct H as (row & Hrow & H).
  apply bind_inr in H. destruct H as (rand_mask & Hmask & H).
  apply bind_inr in H. destruct H as (occ & Hocc & H).
  injection H as <- <-.
  apply randint_inr in Hxs, Hys, Hzs, Hmask.
  destruct Hxs as [Hgs ->]. destruct Hys as [_ ->]. destruct Hzs as [_ ->].
  destruct Hmask as [_ ->].
  apply index_get_inr in Hocc. destruct Hocc as [Hlen Hin].
  exists (combine (combine (map (fun x => x mod grid_size r)%nat
                             (map (fun c => fst (fst c))
                                (map (randint_coords dr cas)
                                   (seq 0 (grid_size r ^ 3 / 4)))))
                          (map (fun x => x mod grid_size r)%nat
                             (map (fun c => snd (fst c))
                                (map (randint_coords dr cas)
                                   (seq 0 (grid_size r ^ 3 / 4))))))
                 (map (fun x => x mod grid_size r)%nat
                    (map snd (map (randint_coords dr cas)
                                (seq 0 (grid_size r ^ 3 / 4)))))), occ.
  split; [reflexivity |]. split; [reflexivity |]. split; [| split; [| split]].
  - rewrite !length_combine, !length_map, length_seq. lia.
  - rewrite Hlen, !length_map, length_seq. reflexivity.
  - intros [[x y] z] Hc.
    pose proof (in_combine_r _ _ _ _ Hc) as Hz.
    apply in_combine_l in Hc.
    pose proof (in_combine_r _ _ _ _ Hc) as Hy.
    apply in_combine_l in Hc.
    apply in_map_iff in Hc, Hy, Hz.
    destruct Hc as (x' & <- & _). destruct Hy as (y' & <- & _).
    destruct Hz as (z' & <- & _).
    unfold in_cube. simpl.
    repeat split; apply Nat.mod_upper_bound; exact Hgs.
  - intros i Hi. apply Hin in Hi. apply nonzero_in in Hi.
    rewrite nth_error_map in Hi. unfold cell.
    rewrite (lookup_inr _ _ _ Hrow).
    destruct (nth_error row i) as [d |]; [| discriminate].
    injection Hi as Hi. exists d. split; [reflexivity | exact (Qltb_lt _ _ Hi)].
Qed.

(** The calls that maintain the grid, [reset_extra_state] apart. *)
Inductive call : Type :=
| Refresh (decay : Q) (S : nat) (dr : Draws)
| Mark (poses : list Pose) (intrinsic : Q * Q * Q * Q) (S : nat).

Definition perform (r : NeRFRenderer Q) (c : call) : error + NeRFRenderer Q :=
  match c with
  | Refresh decay n dr => update_extra_state r decay n dr
  | Mark poses intrinsic n => mark_untrained_grid r poses intrinsic n
  end.

Definition performs (calls : list call) (r : NeRFRenderer Q) : error + NeRFRenderer Q :=
  foldM perform calls r.

Definition is_refresh (c : call) : bool :=
  match c with
  | Refresh _ _ _ => true
  | Mark _ _ _ => false
  end.

Definition refresh_count (calls : list call) : nat :=
  length (filter is_refresh calls).

Lemma mark_untrained_grid_inr (r : NeRFRenderer Q) (poses : list Pose)
    (intrinsic : Q * Q * Q * Q) (S : nat) (r' : NeRFRenderer Q) :
  mark_untrained_grid r poses intrinsic S = inr r' ->
  cuda_ray r' = cuda_ray r /\ grid_size r' = grid_size r /\ cascade r' = cascade r
  /\ iter_density r' = iter_density r
  /\ map (@length Q) (density_grid r') = map (@length Q) (density_grid r).
Proof.
  unfold mark_untrained_grid.
  destruct (cuda_ray r) eqn:Hc; simpl.
  2:{ intros H. injection H as <-. rewrite Hc. repeat split. }
  destruct (S =? 0)%nat; [discriminate |].
  intros H. apply bind_inr in H. destruct H as (count & Hcount & H).
  injection H as <-. simpl. repeat split; try assumption.
  apply map2_rows_shape.
  { intros a b Hab. rewrite map2_length, Hab. apply Nat.min_id. }
  set (P := fun t : list (list nat) => map (@length nat) t = map (@length Q) (density_grid r)).
  assert (H0 : P (map (map (fun _ : Q => 0%nat)) (density_grid r))).
  { unfold P. rewrite map_map. apply map_ext. intros row. apply length_map. }
  change (P count). rename Hcount into H.
  do 5 loop_invariant P.
  destruct (zero_focal_length intrinsic); [discriminate |].
  apply bind_inr in H. destruct H as (row & Hrow & H).
  apply bind_inr in H. destruct H as (old & _ & H).
  apply bind_inr in H. destruct H as (row' & Hput & H).
  injection H as <-. unfold P in *.
  rewrite (set_row_shape _ _ row row' (lookup_inr _ _ _ Hrow)
             (index_put_length _ _ _ _ Hput)).
  assumption.
Qed.

Lemma perform_inr (r : NeRFRenderer Q) (c : call) (r' : NeRFRenderer Q) :
  cuda_ray r = true -> perform r c = inr r' ->
  cuda_ray r' = true /\ grid_size r' = grid_size r /\ cascade r' = cascade r
  /\ map (@length Q) (density_grid r') = map (@length Q) (density_grid r)
  /\ iter_density r' = (iter_density r + (if is_refresh c then 1 else 0))%nat.
Proof.
  intros Hc. destruct c as [decay S dr | poses intrinsic S]; simpl; intros H.
  - destruct (update_extra_state_inr _ _ _ _ _ Hc H)
      as (tmp & Htmp & Hg & Hit & Hc' & Hgs & Hcas).
    repeat split; try assumption; [| lia].
    rewrite Hg. apply map2_rows_shape.
    + intros a b Hab. apply ema_row_length. exact Hab.
    + exact (sampled_grid_shape _ _ _ _ Htmp).
  - destruct (mark_untrained_grid_inr _ _ _ _ _ H) as (Hc' & Hgs & Hcas & Hit & Hsh).
    repeat split; try assumption; [congruence | lia].
Qed.

Lemma performs_inr (calls : list call) (r r' : NeRFRenderer Q) :
  cuda_ray r = true -> performs calls r = inr r' ->
  cuda_ray r' = true /\ grid_size r' = grid_size r /\ cascade r' = cascade r
  /\ map (@length Q) (density_grid r') = map (@length Q) (density_grid r)
  /\ iter_density r' = (iter_density r + refresh_count calls)%nat.
Proof.
  unfold performs, refresh_count. revert r.
  induction calls as [| c calls IH]; intros r Hc H; simpl in H.
  - injection H as <-. simpl. repeat split; [assumption | lia].
  - apply bind_inr in H. destruct H as (r1 & H1 & H).
    destruct (perform_inr _ _ _ Hc H1) as (Hc1 & Hgs1 & Hcas1 & Hsh1 & Hit1).
    destruct (IH r1 Hc1 H) as (Hc' & Hgs & Hcas & Hsh & Hit).
    repeat split; try congruence.
    rewrite Hit, Hit1. simpl. destruct (is_refresh c); simpl; lia.
Qed.

End RefreshSchedule.

(** *** A two-by-two-by-two grid *)

Section GridScene.
Local Open Scope Q_scope.

(** A field that is dense in the half space [0 <= x]. *)
Definition grid_field : Field Q unit := {|
  density := fun p => (let '(x, _, _) := p in if Qle_bool 0 x then 3 else 0, tt);
  color := fun _ _ _ _ _ => (0, 0, 0);
  clip := fun _ _ => []
|}.

(** Kernels for a grid of size 2: cell (x, y, z) has index x + 2 y + 4 z. *)
Definition grid_kernels : Raymarching Q := {|
  near_far_from_aabb := fun _ _ _ _ => (1, 3);
  morton3D := fun c => let '(x, y, z) := c in (x + 2 * y + 4 * z)%nat;
  morton3D_invert := fun i => (i mod 2, (i / 2) mod 2, (i / 4) mod 2)%nat;
  packbits := fun _ _ bitfield => bitfield
|}.

Definition grid_renderer : NeRFRenderer Q :=
  mkRenderer 1 1 2 1 (1 # 5) (1 # 100) (- (1))
             ((- (1), - (1), - (1)), (1, 1, 1)) ((- (1), - (1), - (1)), (1, 1, 1))
             true true
             [[0; 0; 0; 0; 0; 0; 0; 0]] [0%nat] (Some 0) 0 (repeat (0, 0)%Z 16) 0%Z 0 0.

(** A camera at the origin that looks along +z. *)
Definition grid_pose : Pose := (((1, 0, 0), (0, 1, 0), (0, 0, 1)), (0, 0, 0)).

Definition grid_intrinsic : Q * Q * Q * Q := (1, 1, 1, 1).

Definition grid_draws : Draws :=
  mkDraws (fun _ _ => (1 # 2, 1 # 2, 1 # 2)) (fun _ _ => (1 # 2, 1 # 2, 1 # 2))
          (fun _ k => (k, S k, 0%nat)) (fun _ k => k).

(** The renderer after visibility marking: the cells behind the camera are
    excluded. *)
Definition grid_marked : NeRFRenderer Q :=
  with_extra_state grid_renderer [[- (1); - (1); - (1); - (1); 0; 0; 0; 0]]
                   [0%nat] (Some 0) 0 (repeat (0, 0)%Z 16) 0%Z 0.

(** The marked renderer after one refresh with decay 0.95; fractions are
    left as the arithmetic produces them. *)
Definition grid_refreshed : NeRFRenderer Q :=
  with_extra_state grid_renderer [[- (1); - (1); - (1); - (1); 0 # 100; 3; 0 # 100; 3]]
                   [0%nat] (Some (60000 # 80000)) 1 (repeat (0, 0)%Z 16) 0%Z 0.

Lemma grid_marking :
  mark_untrained_grid (K := grid_kernels) grid_renderer [grid_pose] grid_intrinsic 1
  = inr grid_marked.
Proof.
  vm_compute. reflexivity.
Qed.

Lemma grid_refresh :
  update_extra_state (F := grid_field) (K := grid_kernels) grid_marked 0.95 1 grid_draws
  = inr grid_refreshed.
Proof.
  vm_compute. reflexivity.
Qed.

Lemma grid_morton_bijection : morton_bijection (K := grid_kernels) 2.
Proof.
  split.
  - intros [[x y] z] (Hx & Hy & Hz). simpl in Hx, Hy, Hz.
    destruct x as [| [| x]]; [| | lia];
      (destruct y as [| [| y]]; [| | lia]);
      (destruct z as [| [| z]]; [| | lia]);
      (split; [vm_compute; lia | reflexivity]).
  - intros i Hi. change (2 ^ 3)%nat with 8%nat in Hi.
    do 8 (destruct i as [| i];
          [split; [unfold in_cube; vm_compute; lia | reflexivity] |]).
    lia.
Qed.

Lemma maintenance_is_inert_without_cuda_ray_witness :
  exists r,
    init 1 false 1 (1 # 5) (1 # 100) (- (1)) 0 = inr r
    /\ mark_untrained_grid (K := grid_kernels) r [grid_pose] grid_intrinsic 64 = inr r
    /\ update_extra_state (F := grid_field) (K := grid_kernels) r 0.95 128 grid_draws = inr r
    /\ reset_extra_state r = r.
Proof.
  eexists. split; [reflexivity |].
  destruct (maintenance_is_inert_without_cuda_ray (F := grid_field) (K := grid_kernels)
              1 1 (1 # 5) (1 # 100) (- (1)) 0 _ eq_refl) as (Hmark & Hupdate & Hreset).
  split; [apply Hmark |]. split; [apply Hupdate | exact Hreset].
Defined.

Lemma excluded_cells_stay_excluded_witness :
  cell (density_grid grid_marked) 0 0 = Some (- (1))
  /\ refreshes (F := grid_field) (K := grid_kernels) [(0.95, 1%nat, grid_draws)] grid_marked
     = inr grid_refreshed
  /\ cell (density_grid grid_refreshed) 0 0 = Some (- (1)).
Proof.
  assert (H1 : cell (density_grid grid_marked) 0 0 = Some (- (1))) by reflexivity.
  assert (H2 : refreshes (F := grid_field) (K := grid_kernels)
                 [(0.95, 1%nat, grid_draws)] grid_marked = inr grid_refreshed).
  { vm_compute. reflexivity. }
  split; [exact H1 |]. split; [exact H2 |].
  exact (proj1 (excluded_cells_stay_excluded (F := grid_field) (K := grid_kernels)
                  grid_renderer [grid_pose] grid_intrinsic 1 grid_marked
                  [(0.95, 1%nat, grid_draws)] grid_refreshed 0 0 grid_marking H1 H2)).
Defined.

End GridScene.

(** ** Further properties of the occupancy grid *)

Lemma nonzero_from_none (mask : list bool) (a : nat) :
  (forall b, In b mask -> b = false) ->
  filter snd (combine (seq a (length mask)) mask) = [].
Proof.
  revert a. induction mask as [| b mask IH]; intros a H; [reflexivity |].
  cbn [length seq combine filter snd].
  rewrite (H b (or_introl eq_refl)). apply IH.
  intros b' Hb'. apply H. right. exact Hb'.
Qed.

Lemma nonzero_none (mask : list bool) :
  (forall b, In b mask -> b = false) -> nonzero mask = [].
Proof.
  intros H. unfold nonzero. rewrite (nonzero_from_none mask 0 H). reflexivity.
Qed.

(** Reads [r = x] off [inr x = inr r] without normalising [x]. *)
Ltac result_of H r :=
  apply (f_equal (fun s : error + NeRFRenderer Q =>
                    match s with inr x => x | inl _ => r end)) in H;
  cbv beta iota in H; subst r.

Section MaintenanceFacts.
Local Open Scope Q_scope.
Context {feat : Type} {F : Field Q feat} {K : Raymarching Q}.

(** X2: a refresh that returns keeps the shape of the grid and the sign
    class of every cell: a negative cell keeps its value, a non-negative
    cell stays non-negative. *)
Theorem refresh_keeps_cell_validity
    (r : NeRFRenderer Q) (decay : Q) (S : nat) (dr : Draws) (r' : NeRFRenderer Q) :
  update_extra_state r decay S dr = inr r' ->
  map (@length Q) (density_grid r') = map (@length Q) (density_grid r)
  /\ forall cas i v, cell (density_grid r) cas i = Some v ->
       exists v', cell (density_grid r') cas i = Some v'
                  /\ (v < 0 -> v' = v) /\ (0 <= v -> 0 <= v').
Proof.
  intros Hu.
  destruct (cuda_ray r) eqn:Hc.
  2:{ destruct (maintenance_without_cuda_ray r Hc) as (_ & Hid & _).
      rewrite Hid in Hu. injection Hu as <-. split; [reflexivity |].
      intros cas i v Hv. exists v. repeat split; auto. }
  destruct (update_extra_state_inr _ _ _ _ _ Hc Hu) as (tmp & Htmp & Hg & _).
  apply sampled_grid_shape in Htmp. split.
  - rewrite Hg. apply map2_rows_shape; [| exact Htmp].
    intros a b Hab. apply ema_row_length. exact Hab.
  - intros cas i v Hcell. unfold cell in *. rewrite Hg, nth_error_map2.
    destruct (nth_error (density_grid r) cas) as [row |] eqn:Hrow; [| discriminate].
    destruct (same_shape_row _ _ _ _ Htmp Hrow) as (trow & -> & Hlen).
    rewrite ema_row_cell, Hcell.
    destruct (nth_error trow i) as [t |] eqn:Ht.
    2:{ apply nth_error_None in Ht.
        assert (Hi : (i < length row)%nat) by (apply nth_error_Some; congruence).
        lia. }
    eexists. split; [reflexivity |].
    destruct (Qle_bool 0 v) eqn:Hv; cbn [andb].
    + apply Qle_bool_iff in Hv. destruct (Qle_bool 0 t) eqn:Hpos.
      * apply Qle_bool_iff in Hpos. split.
        -- intros Hneg. exfalso. apply (Qlt_not_le _ _ Hneg). exact Hv.
        -- intros _. apply (Qle_trans _ t); [exact Hpos | apply Q.le_max_r].
      * split; [reflexivity | auto].
    + split; [reflexivity | auto].
Qed.

(** X3: once the warm-up is over, a refresh raises RuntimeError when the
    first cascade holds no cell with density above 0: there is nothing for
    [torch.randint(0, 0, ...)] to draw from. *)
Theorem steady_state_needs_occupied_cell
    (r : NeRFRenderer Q) (decay : Q) (S : nat) (dr : Draws) (row : list Q) :
  cuda_ray r = true ->
  (16 <= iter_density r)%nat ->
  (0 < cascade r)%Z ->
  nth_error (density_grid r) 0 = Some row ->
  (forall d, In d row -> d <= 0) ->
  update_extra_state r decay S dr = inl RuntimeError.
Proof.
  intros Hc Hit Hcas Hrow Hocc.
  unfold update_extra_state, sampled_grid. rewrite Hc. cbn [negb].
  destruct (Nat.ltb_spec (iter_density r) 16) as [Hlt | _]; [lia |].
  unfold partial_update.
  destruct (Z.to_nat (cascade r)) as [| n] eqn:Hn; [lia |].
  cbn [seq foldM].
  assert (Hcells : partial_cells r dr 0 = inl RuntimeError).
  { unfold partial_cells, randint at 1.
    destruct (grid_size r =? 0)%nat; [reflexivity |]. cbn [bind].
    unfold randint at 1. destruct (grid_size r =? 0)%nat; [reflexivity |]. cbn [bind].
    unfold randint at 1. destruct (grid_size r =? 0)%nat; [reflexivity |]. cbn [bind].
    unfold lookup. rewrite Hrow. cbn [bind].
    rewrite nonzero_none.
    - reflexivity.
    - intros b Hb. apply in_map_iff in Hb. destruct Hb as (d & <- & Hd).
      unfold Qltb. apply negb_false_iff. apply Qle_bool_iff. exact (Hocc d Hd). }
  rewrite Hcells. reflexivity.
Qed.

(** X4: a renderer constructed with [cuda_ray = True] starts the refresh
    schedule from scratch: a grid of [cascade] rows of [128 ** 3] zeros, a
    bitfield of [cascade * 128 ** 3 // 8] bytes, 16 step counters, and no
    refresh counted. *)
Theorem fresh_renderer_state
    (b ds mn dt bgr : Q) (dim : nat) (r : NeRFRenderer Q) :
  init b true ds mn dt bgr dim = inr r ->
  cuda_ray r = true
  /\ iter_density r = 0%nat
  /\ grid_size r = 128%nat
  /\ (0 <= cascade r)%Z
  /\ grid_shape r (density_grid r)
  /\ (forall cas i v, cell (density_grid r) cas i = Some v -> v = 0)
  /\ length (density_bitfield r) = (Z.to_nat (cascade r) * 128 ^ 3 / 8)%nat
  /\ length (step_counter r) = 16%nat.
Proof.
  unfold init. destruct (Qle_bool b 0); [discriminate |].
  destruct (Z.ltb_spec (1 + ceil_log2 b) 0) as [| Hcas]; [discriminate |].
  intros H. result_of H r.
  unfold grid_shape.
  cbn [cuda_ray iter_density grid_size cascade density_grid density_bitfield step_counter].
  split; [reflexivity |]. split; [reflexivity |]. split; [reflexivity |].
  split; [exact Hcas |]. split; [| split; [| split]].
  - rewrite map_repeat, repeat_length. reflexivity.
  - intros cas i v. unfold cell.
    destruct (nth_error (repeat (repeat 0 (128 ^ 3)) (Z.to_nat (1 + ceil_log2 b))) cas)
      as [row |] eqn:Hrow; [| discriminate].
    apply nth_error_In, repeat_spec in Hrow. subst row.
    intros Hv. apply nth_error_In, repeat_spec in Hv. exact Hv.
  - apply repeat_length.
  - apply repeat_length.
Qed.

(** X5: for a bound that is a power of two, [2 ^ k], there are [k + 1]
    cascades and they double in extent, 1, 2, 4, ..., each below the bound,
    until the last one, whose extent is the bound. *)
Theorem cascade_levels
    (k : nat) (b : Q) (cr : bool) (ds mn dt bgr : Q) (dim : nat) (r : NeRFRenderer Q) :
  b == 2 ^ Z.of_nat k ->
  init b cr ds mn dt bgr dim = inr r ->
  cascade r = (Z.of_nat k + 1)%Z
  /\ (forall cas, (cas < k)%nat ->
        cascade_bound r cas == 2 ^ Z.of_nat cas /\ 2 ^ Z.of_nat cas < b)
  /\ cascade_bound r k == b.
Proof.
  intros Hb Hinit.
  assert (Hpow : forall z, (0 <= z)%Z -> 2 ^ z == inject_Z (2 ^ z)).
  { intros z Hz. rewrite Qpower.Zpower_Qpower by exact Hz. reflexivity. }
  assert (Hbz : b == inject_Z (2 ^ Z.of_nat k)) by (rewrite Hb; apply Hpow; lia).
  assert (Hk1 : (1 <= 2 ^ Z.of_nat k)%Z).
  { pose proof (Z.pow_pos_nonneg 2 (Z.of_nat k)). lia. }
  assert (H1b : 1 <= b) by (rewrite Hbz; rewrite <- (Zle_Qle 1); exact Hk1).
  assert (Hceil : Qceiling b = (2 ^ Z.of_nat k)%Z).
  { rewrite (Qceiling_comp _ _ Hbz). apply Qceiling_Z. }
  assert (Hr : cascade r = (1 + Z.log2_up (Qceiling b))%Z /\ bound r = b).
  { unfold init in Hinit. destruct (Qle_bool b 0); [discriminate |].
    assert (Hlog : ceil_log2 b = Z.log2_up (Qceiling b)).
    { unfold ceil_log2. apply Qle_bool_iff in H1b. rewrite H1b. reflexivity. }
    rewrite Hlog in Hinit.
    destruct cr.
    - destruct (1 + Z.log2_up (Qceiling b) <? 0)%Z; [discriminate |].
      result_of Hinit r. cbn [cascade bound]. split; reflexivity.
    - result_of Hinit r. cbn [cascade bound]. split; reflexivity. }
  destruct Hr as [Hcas Hbound].
  rewrite Hceil, Z.log2_up_pow2 in Hcas by lia.
  split; [lia |]. split.
  - intros cas Hlt.
    assert (Hq : 2 ^ Z.of_nat cas < b).
    { rewrite Hbz, Hpow by lia. rewrite <- Zlt_Qlt.
      apply Z.pow_lt_mono_r; lia. }
    split; [| exact Hq].
    unfold cascade_bound. rewrite Hbound. apply Q.min_l. apply Qlt_le_weak. exact Hq.
  - unfold cascade_bound. rewrite Hbound. apply Q.min_r. rewrite Hb. apply Qle_refl.
Qed.

(** X6: with [cuda_ray], [reset_extra_state] brings back the state the
    schedule starts from: no refresh counted and a grid of the same shape
    with every cell 0, the excluded ones included; the bitfield is left as
    it was.  Resetting twice is resetting once. *)
Theorem reset_restarts_from_scratch (r : NeRFRenderer Q) :
  cuda_ray r = true ->
  cuda_ray (reset_extra_state r) = true
  /\ iter_density (reset_extra_state r) = 0%nat
  /\ local_step (reset_extra_state r) = 0%nat
  /\ grid_size (reset_extra_state r) = grid_size r
  /\ cascade (reset_extra_state r) = cascade r
  /\ map (@length Q) (density_grid (reset_extra_state r)) = map (@length Q) (density_grid r)
  /\ (forall cas i v, cell (density_grid r) cas i = Some v ->
        cell (density_grid (reset_extra_state r)) cas i = Some 0)
  /\ density_bitfield (reset_extra_state r) = density_bitfield r
  /\ reset_extra_state (reset_extra_state r) = reset_extra_state r.
Proof.
  intros Hc. unfold reset_extra_state. rewrite Hc. cbn [negb].
  cbn [cuda_ray with_extra_state iter_density local_step grid_size cascade density_grid
       density_bitfield]. rewrite Hc. cbn [negb].
  repeat split.
  - rewrite map_map. apply map_ext. intros row. apply length_map.
  - intros cas i v. unfold cell. rewrite nth_error_map.
    destruct (nth_error (density_grid r) cas) as [row |]; [| discriminate].
    cbn [option_map]. rewrite nth_error_map. intros ->. reflexivity.
  - unfold with_extra_state.
    cbn [bound cascade grid_size density_scale min_near density_thresh bg_radius aabb_train
         aabb_infer training cuda_ray density_grid density_bitfield step_counter
         clip_feat_dim].
    rewrite !map_map. f_equal. apply map_ext. intros row. apply map_map.
Qed.

End MaintenanceFacts.

Section MaintenanceScene.
Local Open Scope Q_scope.

(** The small grid after the warm-up with nothing occupied. *)
Definition grid_stale : NeRFRenderer Q :=
  with_extra_state grid_renderer [[0; 0; 0; 0; 0; 0; 0; 0]]
                   [0%nat] (Some 0) 16 (repeat (0, 0)%Z 16) 0%Z 0.

Lemma refresh_keeps_cell_validity_witness :
  exists v',
    cell (density_grid grid_refreshed) 0 5 = Some v' /\ 0 <= v'.
Proof.
  destruct (refresh_keeps_cell_validity (F := grid_field) (K := grid_kernels)
              grid_marked 0.95 1 grid_draws grid_refreshed grid_refresh)
    as (_ & Hcells).
  destruct (Hcells 0%nat 5%nat 0 eq_refl) as (v' & Hv' & _ & Hpos).
  exists v'. split; [exact Hv' |]. apply Hpos. apply Qle_refl.
Defined.

Lemma steady_state_needs_occupied_cell_witness :
  update_extra_state (F := grid_field) (K := grid_kernels) grid_stale 0.95 1 grid_draws
  = inl RuntimeError.
Proof.
  apply (steady_state_needs_occupied_cell (F := grid_field) (K := grid_kernels)
           grid_stale 0.95 1 grid_draws [0; 0; 0; 0; 0; 0; 0; 0]).
  - reflexivity.
  - vm_compute. lia.
  - reflexivity.
  - reflexivity.
  - intros d Hd. simpl in Hd.
    repeat (destruct Hd as [<- | Hd]; [apply Qle_refl |]). contradiction.
Defined.

Lemma fresh_renderer_state_witness :
  exists r,
    init 2 true 1 (1 # 5) (1 # 100) (- (1)) 0 = inr r
    /\ iter_density r = 0%nat /\ grid_size r = 128%nat.
Proof.
  eexists. split; [reflexivity |].
  destruct (fresh_renderer_state 2 1 (1 # 5) (1 # 100) (- (1)) 0 _ eq_refl)
    as (_ & Hit & Hgs & _).
  split; [exact Hit | exact Hgs].
Defined.

Lemma cascade_levels_witness :
  exists r,
    init 4 false 1 (1 # 5) (1 # 100) (- (1)) 0 = inr r
    /\ cascade r = 3%Z
    /\ cascade_bound r 1 == 2 /\ cascade_bound r 2 == 4.
Proof.
  assert (Hb : 4 == 2 ^ Z.of_nat 2) by reflexivity.
  eexists. split; [reflexivity |].
  destruct (cascade_levels 2 4 false 1 (1 # 5) (1 # 100) (- (1)) 0 _ Hb eq_refl)
    as (Hcas & Hlow & Hlast).
  split; [exact Hcas |]. split.
  - exact (proj1 (Hlow 1%nat (Nat.lt_succ_diag_r 1))).
  - exact Hlast.
Defined.

Lemma reset_restarts_from_scratch_witness :
  iter_density (reset_extra_state grid_refreshed) = 0%nat
  /\ cell (density_grid (reset_extra_state grid_refreshed)) 0 0 = Some 0.
Proof.
  destruct (reset_restarts_from_scratch grid_refreshed eq_refl)
    as (_ & Hit & _ & _ & _ & _ & Hcells & _).
  split; [exact Hit |]. exact (Hcells 0%nat 0%nat (- (1)) eq_refl).
Defined.

End MaintenanceScene.

(** ** Visibility marking *)

Lemma index_get_map {A B : Type} (g : B -> nat) (row : list A) (cs : list B) (d : A) :
  (forall c, In c cs -> (g c < length row)%nat) ->
  index_get row (map g cs) = inr (map (fun c => nth (g c) row d) cs).
Proof.
  unfold index_get. induction cs as [| a cs IH]; intros Hlt; [reflexivity |].
  cbn [map sequence]. unfold lookup at 1.
  rewrite (nth_error_nth' row d (Hlt a (or_introl eq_refl))).
  rewrite IH by (intros c Hc; apply Hlt; right; exact Hc). reflexivity.
Qed.

Lemma map2_map_same {A B C D : Type} (f : B -> C -> D) (a : A -> B) (b : A -> C)
    (l : list A) :
  map2 f (map a l) (map b l) = map (fun x => f (a x) (b x)) l.
Proof.
  induction l as [| x l IH]; [reflexivity |]. cbn [map map2]. rewrite IH. reflexivity.
Qed.

Lemma filter_none {A : Type} (f : A -> bool) (l : list A) :
  (forall x, In x l -> f x = false) -> filter f l = [].
Proof.
  induction l as [| x l IH]; intros H; [reflexivity |].
  cbn [filter]. rewrite (H x (or_introl eq_refl)).
  apply IH. intros y Hy. apply H. right. exact Hy.
Qed.

Lemma filter_some {A : Type} (f : A -> bool) (l : list A) (x : A) :
  In x l -> f x = true -> (0 < length (filter f l))%nat.
Proof.
  intros Hx Hf.
  assert (Hin : In x (filter f l)) by (apply filter_In; split; assumption).
  destruct (filter f l); [contradiction | simpl; lia].
Qed.

Lemma shape_row {A : Type} (grid : list (list A)) (n C cas : nat) :
  map (@length A) grid = repeat n C -> (cas < C)%nat ->
  exists row, nth_error grid cas = Some row /\ length row = n.
Proof.
  intros Hs Hcas.
  assert (H : nth_error (map (@length A) grid) cas = Some n).
  { rewrite Hs. apply nth_error_repeat. exact Hcas. }
  rewrite nth_error_map in H.
  destruct (nth_error grid cas) as [row |]; [| discriminate].
  injection H as H. exists row. split; [reflexivity | exact H].
Qed.

Section MarkingFacts.
Local Open Scope Q_scope.
Context {K : Raymarching Q}.

(** [count[cas, i]]. *)
Definition count_cell (count : list (list nat)) (cas i : nat) : option nat :=
  match nth_error count cas with
  | Some row => nth_error row i
  | None => None
  end.

(** Whether a camera covers the centre of cell [c] at the scale of cascade
    [cas]: one entry of [mask_z & mask_x & mask_y]. *)
Definition covers (r : NeRFRenderer Q) (intrinsic : Q * Q * Q * Q) (cas : nat)
    (c : nat * nat * nat) (pose : Pose) : bool :=
  covered intrinsic (cascade_bound r cas / Qnat (grid_size r)) pose
          (qscale (cascade_bound r cas - cascade_bound r cas / Qnat (grid_size r))
                  (cell_center (grid_size r) c)).

(** The state of [count] during the loops: cells no camera covers hold 0,
    and the cells of [W] covered by their camera hold a positive count. *)
Definition counted (r : NeRFRenderer Q) (intrinsic : Q * Q * Q * Q) (poses : list Pose)
    (W : nat * (nat * nat * nat) * Pose -> Prop) (count : list (list nat)) : Prop :=
  map (@length nat) count = repeat (grid_size r ^ 3)%nat (Z.to_nat (cascade r))
  /\ (forall cas c n,
        in_cube (grid_size r) c ->
        (forall pose, In pose poses -> covers r intrinsic cas c pose = false) ->
        count_cell count cas (morton3D c) = Some n -> n = 0%nat)
  /\ (forall cas c pose,
        W (cas, c, pose) -> in_cube (grid_size r) c ->
        covers r intrinsic cas c pose = true ->
        exists n, count_cell count cas (morton3D c) = Some n /\ (0 < n)%nat).

Lemma counted_mono (r : NeRFRenderer Q) (intrinsic : Q * Q * Q * Q) (poses : list Pose)
    (W W' : nat * (nat * nat * nat) * Pose -> Prop) (count : list (list nat)) :
  (forall e, W' e -> W e) ->
  counted r intrinsic poses W count -> counted r intrinsic poses W' count.
Proof.
  intros Hsub (Hshape & Hzero & Hpos). split; [exact Hshape |]. split; [exact Hzero |].
  intros cas c pose HW. apply Hpos. apply Hsub. exact HW.
Qed.

(** One [count[cas, indices] += mask] for one batch of cameras. *)
Lemma count_batch (r : NeRFRenderer Q) (intrinsic : Q * Q * Q * Q) (poses : list Pose)
    (W : nat * (nat * nat * nat) * Pose -> Prop) (count : list (list nat)) (cas : nat)
    (cs : list (nat * nat * nat)) (batch : list Pose) :
  morton_bijection (grid_size r) ->
  (cas < Z.to_nat (cascade r))%nat ->
  (forall c, In c cs -> in_cube (grid_size r) c) ->
  (forall pose, In pose batch -> In pose poses) ->
  counted r intrinsic poses W count ->
  exists count',
    (row <- lookup count cas ;;
     old <- index_get row (map morton3D cs) ;;
     row' <- index_put row (map morton3D cs)
               (map2 Nat.add old
                  (map (fun p =>
                          length (filter (fun pose =>
                                    covered intrinsic
                                      (cascade_bound r cas / Qnat (grid_size r)) pose p)
                                  batch))
                       (map (qscale (cascade_bound r cas
                                     - cascade_bound r cas / Qnat (grid_size r)))
                            (map (cell_center (grid_size r)) cs)))) ;;
     inr (set_nth cas row' count)) = inr count'
    /\ counted r intrinsic poses
         (fun e => W e \/ (fst (fst e) = cas /\ In (snd (fst e)) cs /\ In (snd e) batch))
         count'.
Proof.
  intros Hbij Hcas Hcs Hbatch (Hshape & Hzero & Hpos).
  destruct (shape_row count _ _ cas Hshape Hcas) as (row & Hrow & Hlen).
  assert (Hidx : forall c, In c cs -> (morton3D c < length row)%nat).
  { intros c Hc. rewrite Hlen. apply Hbij. apply Hcs. exact Hc. }
  set (a := fun c : nat * nat * nat => nth (morton3D c) row 0%nat).
  set (b := fun c : nat * nat * nat => length (filter (covers r intrinsic cas c) batch)).
  destruct (index_put_map morton3D (fun c => (a c + b c)%nat) cs row Hidx)
    as (row' & Hput & Hlen' & Hin & Hout).
  { intros c c' Hc Hc' Hg.
    rewrite (morton3D_injective _ c c' Hbij (Hcs c Hc) (Hcs c' Hc') Hg). reflexivity. }
  assert (Hlt : (cas < length count)%nat) by (apply nth_error_Some; congruence).
  assert (Hold : forall c, In c cs -> count_cell count cas (morton3D c) = Some (a c)).
  { intros c Hc. unfold count_cell. rewrite Hrow. apply nth_error_nth'. exact (Hidx c Hc). }
  exists (set_nth cas row' count). split.
  - unfold lookup. rewrite Hrow. cbn [bind].
    rewrite (index_get_map morton3D row cs 0%nat Hidx). cbn [bind].
    match goal with
    | |- context [index_put row _ ?vals] =>
      replace vals with (map (fun c => (a c + b c)%nat) cs)
    end.
    + rewrite Hput. reflexivity.
    + rewrite !map_map. symmetry. exact (map2_map_same Nat.add a b cs).
  - assert (Hcell : forall cas' j,
              count_cell (set_nth cas row' count) cas' j
              = if Nat.eq_dec cas cas' then nth_error row' j else count_cell count cas' j).
    { intros cas' j. unfold count_cell.
      destruct (Nat.eq_dec cas cas') as [<- | Hne].
      - rewrite nth_error_set_nth_eq by exact Hlt. reflexivity.
      - rewrite nth_error_set_nth_neq by assumption. reflexivity. }
    assert (Hnew : forall c', in_cube (grid_size r) c' ->
              In (morton3D c') (map morton3D cs) ->
              In c' cs /\ nth_error row' (morton3D c') = Some (a c' + b c')%nat).
    { intros c' Hc' Hi. apply in_map_iff in Hi. destruct Hi as (c & Hg & Hc).
      rewrite <- (morton3D_injective _ c c' Hbij (Hcs c Hc) Hc' Hg).
      split; [exact Hc | apply Hin; exact Hc]. }
    split; [| split].
    + rewrite (set_row_shape count cas row row' Hrow Hlen'). exact Hshape.
    + intros cas' c' n Hc' Hnone. rewrite Hcell.
      destruct (Nat.eq_dec cas cas') as [<- | Hne]; [| apply Hzero; assumption].
      destruct (in_dec Nat.eq_dec (morton3D c') (map morton3D cs)) as [Hi | Hi].
      * destruct (Hnew c' Hc' Hi) as [Hc'in ->]. intros Hn. injection Hn as <-.
        rewrite (Hzero cas c' (a c') Hc' Hnone (Hold c' Hc'in)).
        unfold b. rewrite filter_none; [reflexivity |].
        intros pose Hpose. apply Hnone. apply Hbatch. exact Hpose.
      * rewrite (Hout _ Hi). intros Hn.
        apply (Hzero cas c' n Hc' Hnone). unfold count_cell. rewrite Hrow. exact Hn.
    + intros cas' c' pose HW Hc' Hcov. rewrite Hcell.
      destruct (Nat.eq_dec cas cas') as [<- | Hne].
      * destruct (in_dec Nat.eq_dec (morton3D c') (map morton3D cs)) as [Hi | Hi].
        -- destruct (Hnew c' Hc' Hi) as [Hc'in ->].
           eexists. split; [reflexivity |].
           destruct HW as [HW | (_ & _ & Hpose)].
           ++ destruct (Hpos cas c' pose HW Hc' Hcov) as (n & Hn & Hn0).
              rewrite (Hold c' Hc'in) in Hn. injection Hn as Hn. lia.
           ++ cbn [fst snd] in Hpose.
              pose proof (filter_some (covers r intrinsic cas c') batch pose Hpose Hcov)
                as Hb.
              unfold b. lia.
        -- destruct HW as [HW | (_ & Hc & _)].
           ++ destruct (Hpos cas c' pose HW Hc' Hcov) as (n & Hn & Hn0).
              exists n. split; [| exact Hn0].
              rewrite (Hout _ Hi). unfold count_cell in Hn. rewrite Hrow in Hn. exact Hn.
           ++ exfalso. apply Hi. apply in_map. exact Hc.
      * destruct HW as [HW | (Heq & _)]; [| cbn [fst] in Heq; congruence].
        exact (Hpos cas' c' pose HW Hc' Hcov).
Qed.

(** X7: with [cuda_ray], a grid of at least two cells a side, focal
    lengths other than 0, a positive block size and [morton3D] numbering the
    cells, [mark_untrained_grid] returns, changes nothing but the density
    grid, and sets a cell to -1 exactly when no camera covers its centre at
    the scale of its cascade; a cell some camera covers keeps its value. *)
Theorem visibility_marking
    (r : NeRFRenderer Q) (poses : list Pose) (fx fy cx cy : Q) (S : nat) :
  cuda_ray r = true ->
  (2 <= grid_size r)%nat ->
  ~ fx == 0 ->
  ~ fy == 0 ->
  (0 < S)%nat ->
  morton_bijection (grid_size r) ->
  grid_shape r (density_grid r) ->
  exists r1,
    mark_untrained_grid r poses (fx, fy, cx, cy) S = inr r1
    /\ r1 = with_extra_state r (density_grid r1) (density_bitfield r) (mean_density r)
                             (iter_density r) (step_counter r) (mean_count r)
                             (local_step r)
    /\ forall cas c,
         (cas < Z.to_nat (cascade r))%nat -> in_cube (grid_size r) c ->
         exists d,
           cell (density_grid r) cas (morton3D c) = Some d
           /\ cell (density_grid r1) cas (morton3D c)
              = Some (if existsb (covers r (fx, fy, cx, cy) cas c) poses
                      then d else - (1)).
Proof.
  intros Hc _ Hfx Hfy HS Hbij Hshape.
  assert (Hfocal : zero_focal_length (fx, fy, cx, cy) = false).
  { unfold zero_focal_length. apply orb_false_iff. split.
    - destruct (Qeq_bool fx 0) eqn:E; [| reflexivity].
      apply Qeq_bool_iff in E. contradiction.
    - destruct (Qeq_bool fy 0) eqn:E; [| reflexivity].
      apply Qeq_bool_iff in E. contradiction. }
  set (intrinsic := (fx, fy, cx, cy)) in *.
  unfold mark_untrained_grid. rewrite Hc. cbn [negb].
  destruct (Nat.eqb_spec S 0) as [-> | _]; [lia |].
  set (L := split S (seq 0 (grid_size r))).
  set (B := split S poses).
  set (C := seq 0 (Z.to_nat (cascade r))).
  assert (Hrange : forall chunk, In chunk L -> forall x, In x chunk -> (x < grid_size r)%nat).
  { intros chunk Hchunk x Hx.
    assert (Hin : In x (seq 0 (grid_size r))).
    { apply (split_covers S _ x HS). exists chunk. split; assumption. }
    apply in_seq in Hin. lia. }
  match goal with
  | |- context [bind (foldM ?body L ?c0) _] =>
    destruct (foldM_accumulate (counted r intrinsic poses)
                (fun xs e => exists ys, In ys L /\ exists zs, In zs L /\
                   exists cas, In cas C /\ exists batch, In batch B /\
                     (fst (fst e) = cas /\ In (snd (fst e)) (meshgrid xs ys zs)
                      /\ In (snd e) batch))
                body L (counted_mono r intrinsic poses))
      with (W := fun _ : nat * (nat * nat * nat) * Pose => False) (s := c0)
      as (count & Hf & Hcnt)
  end.
  - intros W s xs Hxs HI.
    apply (foldM_accumulate (counted r intrinsic poses)
             (fun ys e => exists zs, In zs L /\
                exists cas, In cas C /\ exists batch, In batch B /\
                  (fst (fst e) = cas /\ In (snd (fst e)) (meshgrid xs ys zs)
                   /\ In (snd e) batch))
             _ L (counted_mono r intrinsic poses)); [| exact HI].
    intros W1 s1 ys Hys HI1.
    apply (foldM_accumulate (counted r intrinsic poses)
             (fun zs e =>
                exists cas, In cas C /\ exists batch, In batch B /\
                  (fst (fst e) = cas /\ In (snd (fst e)) (meshgrid xs ys zs)
                   /\ In (snd e) batch))
             _ L (counted_mono r intrinsic poses)); [| exact HI1].
    intros W2 s2 zs Hzs HI2.
    apply (foldM_accumulate (counted r intrinsic poses)
             (fun cas e =>
                exists batch, In batch B /\
                  (fst (fst e) = cas /\ In (snd (fst e)) (meshgrid xs ys zs)
                   /\ In (snd e) batch))
             _ C (counted_mono r intrinsic poses)); [| exact HI2].
    intros W3 s3 cas Hcas HI3.
    apply (foldM_accumulate (counted r intrinsic poses)
             (fun batch e =>
                fst (fst e) = cas /\ In (snd (fst e)) (meshgrid xs ys zs)
                /\ In (snd e) batch)
             _ B (counted_mono r intrinsic poses)); [| exact HI3].
    intros W4 s4 batch Hbatch HI4. rewrite Hfocal.
    apply count_batch; [exact Hbij | | | | exact HI4].
    + apply in_seq in Hcas. lia.
    + intros [[x y] z] Hcell. apply in_meshgrid in Hcell.
      destruct Hcell as (Hx & Hy & Hz). unfold in_cube. simpl.
      repeat split;
        [apply (Hrange xs Hxs) | apply (Hrange ys Hys) | apply (Hrange zs Hzs)];
        assumption.
    + intros pose Hpose. apply (split_covers S poses pose HS).
      exists batch. split; assumption.
  - split; [| split].
    + rewrite map_map. unfold grid_shape in Hshape. rewrite <- Hshape.
      apply map_ext. intros row. apply length_map.
    + intros cas c n _ _. unfold count_cell. rewrite nth_error_map.
      destruct (nth_error (density_grid r) cas) as [row |]; [| discriminate].
      cbn [option_map]. rewrite nth_error_map.
      destruct (nth_error row (morton3D c)); [| discriminate].
      cbn [option_map]. intros H. injection H as <-. reflexivity.
    + intros cas c pose [].
  - rewrite Hf. cbn [bind]. eexists. split; [reflexivity |].
    split; [reflexivity |].
    destruct Hcnt as (Hcshape & Hzero & Hpos).
    intros cas c Hcas Hcube.
    destruct (grid_shape_row r (density_grid r) cas Hshape Hcas) as (row & Hrow & Hlen).
    destruct (shape_row count _ _ cas Hcshape Hcas) as (crow & Hcrow & Hclen).
    assert (Hidx : (morton3D c < grid_size r ^ 3)%nat) by (apply Hbij; exact Hcube).
    destruct (nth_error row (morton3D c)) as [d |] eqn:Hd.
    2:{ apply nth_error_None in Hd. lia. }
    destruct (nth_error crow (morton3D c)) as [n |] eqn:Hn.
    2:{ apply nth_error_None in Hn. lia. }
    exists d. unfold cell. cbn [density_grid with_extra_state].
    rewrite Hrow, nth_error_map2, Hrow, Hcrow, nth_error_map2, Hd, Hn.
    split; [reflexivity |]. f_equal.
    assert (Hcell : count_cell count cas (morton3D c) = Some n).
    { unfold count_cell. rewrite Hcrow. exact Hn. }
    destruct (existsb (covers r intrinsic cas c) poses) eqn:Hex.
    + apply existsb_exists in Hex. destruct Hex as (pose & Hpose & Hcov).
      destruct (Hpos cas c pose) as (n' & Hn' & Hn0); [| exact Hcube | exact Hcov |].
      * right.
        assert (Hchunk : forall x, (x < grid_size r)%nat ->
                  exists chunk, In chunk L /\ In x chunk).
        { intros x' Hx'. apply (split_covers S _ x' HS). apply in_seq. lia. }
        destruct c as [[x y] z]. destruct Hcube as (Hx & Hy & Hz). simpl in Hx, Hy, Hz.
        destruct (Hchunk x Hx) as (xs & Hxs & Hxin).
        destruct (Hchunk y Hy) as (ys & Hys & Hyin).
        destruct (Hchunk z Hz) as (zs & Hzs & Hzin).
        destruct (proj1 (split_covers S poses pose HS) Hpose) as (batch & Hb & Hbin).
        exists xs. split; [exact Hxs |]. exists ys. split; [exact Hys |].
        exists zs. split; [exact Hzs |]. exists cas. split; [apply in_seq; lia |].
        exists batch. split; [exact Hb |].
        split; [reflexivity |]. split; [apply in_meshgrid; auto | exact Hbin].
      * rewrite Hcell in Hn'. injection Hn' as ->.
        destruct (Nat.eqb_spec n' 0); [lia | reflexivity].
    + assert (Hz : n = 0%nat).
      { apply (Hzero cas c n Hcube); [| exact Hcell].
        intros pose Hpose.
        destruct (covers r intrinsic cas c pose) eqn:Hcov; [| reflexivity].
        assert (Hex' : existsb (covers r intrinsic cas c) poses = true)
          by (apply existsb_exists; exists pose; split; assumption).
        congruence. }
      subst n. reflexivity.
Qed.

End MarkingFacts.

Section MarkingScene.
Local Open Scope Q_scope.

Lemma visibility_marking_witness :
  exists r1,
    mark_untrained_grid (K := grid_kernels) grid_renderer [grid_pose] grid_intrinsic 1
    = inr r1
    /\ cell (density_grid r1) 0 0 = Some (- (1))
    /\ cell (density_grid r1) 0 4 = Some 0.
Proof.
  assert (Hgs : (2 <= grid_size grid_renderer)%nat) by apply le_n.
  assert (Hf : ~ 1 == 0) by (intros H; discriminate H).
  assert (HS : (0 < 1)%nat) by apply Nat.lt_0_1.
  destruct (visibility_marking (K := grid_kernels) grid_renderer [grid_pose]
              1 1 1 1 1 eq_refl Hgs Hf Hf HS grid_morton_bijection eq_refl)
    as (r1 & Hmark & _ & Hcells).
  exists r1. split; [exact Hmark |]. split.
  - destruct (Hcells 0%nat (0, 0, 0)%nat ltac:(vm_compute; lia)
                ltac:(unfold in_cube; vm_compute; lia)) as (d & Hd & Hc).
    vm_compute in Hd. injection Hd as <-. exact Hc.
  - destruct (Hcells 0%nat (0, 0, 1)%nat ltac:(vm_compute; lia)
                ltac:(unfold in_cube; vm_compute; lia)) as (d & Hd & Hc).
    vm_compute in Hd. injection Hd as <-. exact Hc.
Defined.

End MarkingScene.

(** ** Further properties of the compositor *)

Section RunFacts.
Local Open Scope R_scope.
Context {feat : Type} {F : Field R feat} {K : Raymarching R}.

(** The box [run] samples in: [self.aabb_train if self.training else self.aabb_infer]. *)
Definition active_aabb (r : NeRFRenderer R) : vec3 R * vec3 R :=
  if training r then aabb_train r else aabb_infer r.

(** Componentwise order. *)
Definition vle (a b : vec3 R) : Prop :=
  fst (fst a) <= fst (fst b) /\ snd (fst a) <= snd (fst b) /\ snd a <= snd b.

Lemma clip_to_aabb_inside (aabb : vec3 R * vec3 R) (p : vec3 R) :
  vle (fst aabb) (snd aabb) ->
  vle (fst aabb) (clip_to_aabb aabb p) /\ vle (clip_to_aabb aabb p) (snd aabb).
Proof.
  destruct aabb as [[[l0 l1] l2] [[h0 h1] h2]]. destruct p as [[x y] z].
  unfold vle, clip_to_aabb, vmin, vmax. cbn [fst snd]. intros (H0 & H1 & H2).
  unfold Rmin, Rmax.
  repeat split; repeat (destruct (Rle_dec _ _)); lra.
Qed.

(** X8: whatever the ray, the jitter and the near/far pair the kernel
    returns, every point at which [run] queries the field lies inside the
    active box, provided the box is not inverted. *)
Theorem samples_stay_in_aabb (r : NeRFRenderer R) (T : nat) (perturb : bool)
    (rand : nat -> R) (ray : Ray) (p : vec3 R) :
  vle (fst (active_aabb r)) (snd (active_aabb r)) ->
  In p (ro_xyzs (run_ray r T perturb rand ray)) ->
  vle (fst (active_aabb r)) p /\ vle p (snd (active_aabb r)).
Proof.
  intros Hbox. unfold run_ray, active_aabb in *.
  destruct (near_far_from_aabb _ _ _ _) as [near far]. cbn [ro_xyzs].
  intros Hin. apply in_map_iff in Hin. destruct Hin as (z & <- & _).
  apply clip_to_aabb_inside. exact Hbox.
Qed.







Lemma in_map2 {A B C : Type} (f : A -> B -> C) (l : list A) (l' : list B) (c : C) :
  In c (map2 f l l') -> exists a b, In a l /\ In b l' /\ c = f a b.
Proof.
  revert l'. induction l as [| a l IH]; intros [| b l'] H; try contradiction.
  cbn [map2] in H. destruct H as [<- | H].
  - exists a, b. repeat split; left; reflexivity.
  - destruct (IH l' H) as (a' & b' & Ha & Hb & Hc).
    exists a', b'. repeat split; [right | right |]; assumption.
Qed.





End RunFacts.

Section RunScene.
Local Open Scope R_scope.


Lemma samples_stay_in_aabb_witness :
  vle (fst (active_aabb scene_renderer)) (hd (0, 0, 0) (ro_xyzs scene_out))
  /\ vle (hd (0, 0, 0) (ro_xyzs scene_out)) (snd (active_aabb scene_renderer)).
Proof.
  apply (samples_stay_in_aabb (F := scene_field) (K := scene_kernels)
           scene_renderer 2 false (fun _ => 0) scene_ray).
  - unfold vle, active_aabb. cbn. lra.
  - unfold scene_out, run_ray. cbn. left. reflexivity.
Defined.




End RunScene.

(** ** Further properties of the importance resampler *)

Section ResamplerFacts.
Local Open Scope Q_scope.

(** What the scan of [searchsorted_right] has seen when it stops. *)
Lemma searchsorted_right_bounds (l : list Q) (v : Q) :
  (searchsorted_right l v <= length l)%nat
  /\ (forall k, (k < searchsorted_right l v)%nat -> nth k l 0 <= v)
  /\ ((searchsorted_right l v < length l)%nat -> v < nth (searchsorted_right l v) l 0).
Proof.
  induction l as [| x t (IH1 & IH2 & IH3)]; cbn [searchsorted_right length].
  - split; [lia |]. split; intros; lia.
  - destruct (Qle_bool x v) eqn:E.
    + apply Qle_bool_iff in E. split; [lia |]. split.
      * intros [| k] Hk; cbn [nth]; [exact E | apply IH2; lia].
      * intros Hlt. cbn [nth]. apply IH3. lia.
    + split; [lia |]. split; [intros k Hk; lia |].
      intros _. cbn [nth]. apply Qnot_le_lt. intros Hle.
      apply Qle_bool_iff in Hle. congruence.
Qed.

Lemma interpolation_between (b0 b1 t : Q) :
  0 <= t -> t <= 1 ->
  Qmin b0 b1 <= b0 + t * (b1 - b0) /\ b0 + t * (b1 - b0) <= Qmax b0 b1.
Proof.
  intros H0 H1.
  destruct (Q.min_spec b0 b1) as [[Hlt Hmin] | [Hle Hmin]];
    destruct (Q.max_spec b0 b1) as [[Hlt' Hmax] | [Hle' Hmax]];
    rewrite Hmin, Hmax; split; Lqa.nra.
Qed.

(** X12: whatever the quantile and the weights, inverting the CDF returns a
    value between the two bin boundaries of the located interval, so a
    sample never leaves the range of [bins]. *)
Theorem inverted_sample_within_interval (bins cdf : list Q) (u : Q) :
  cdf <> [] ->
  length bins = length cdf ->
  exists s b0 b1,
    invert_cdf bins cdf u = inr s
    /\ gather bins (below_of cdf u) = Some b0
    /\ gather bins (above_of cdf u) = Some b1
    /\ Qmin b0 b1 <= s /\ s <= Qmax b0 b1.
Proof.
  intros Hne Hlen.
  destruct (searchsorted_right_bounds cdf u) as (Hj & Hbelow & Habove).
  set (j := searchsorted_right cdf u) in *.
  assert (Hn : (0 < length cdf)%nat) by (destruct cdf; [congruence | simpl; lia]).
  assert (Eb : below_of cdf u = Z.of_nat (Nat.pred j)).
  { unfold below_of. fold j. lia. }
  assert (Ea : above_of cdf u = Z.of_nat (Nat.min (length cdf - 1) j)).
  { unfold above_of. fold j. lia. }
  unfold invert_cdf. rewrite Eb, Ea.
  rewrite !gather_nth by lia.
  set (c0 := nth (Nat.pred j) cdf 0). set (c1 := nth (Nat.min (length cdf - 1) j) cdf 0).
  set (b0 := nth (Nat.pred j) bins 0). set (b1 := nth (Nat.min (length cdf - 1) j) bins 0).
  eexists. exists b0, b1. split; [reflexivity |]. split; [reflexivity |].
  split; [reflexivity |].
  destruct (Nat.eq_dec (Nat.pred j) (Nat.min (length cdf - 1) j)) as [Heq | Hneq].
  - (* the quantile lies before the first or after the last entry *)
    assert (Hb : b1 = b0) by (unfold b0, b1; rewrite Heq; reflexivity).
    rewrite Hb.
    destruct (Q.min_spec b0 b0) as [[Hlt Hmin] | [Hle Hmin]];
      destruct (Q.max_spec b0 b0) as [[Hlt' Hmax] | [Hle' Hmax]];
      rewrite Hmin, Hmax; split; Lqa.nra.
  - assert (Hj0 : (0 < j)%nat) by lia.
    assert (Hjn : (j < length cdf)%nat) by lia.
    assert (Hc0 : c0 <= u) by (apply Hbelow; lia).
    assert (Hc1 : u < c1).
    { unfold c1. replace (Nat.min (length cdf - 1) j) with j by lia.
      apply Habove. exact Hjn. }
    apply interpolation_between.
    + destruct (Qlt_le_dec (c1 - c0) 1e-5) as [_ | Hd].
      * unfold Qdiv. rewrite Qmult_comm. apply Qmult_le_0_compat; [| Lqa.lra].
        apply Qinv_le_0_compat. Lqa.lra.
      * apply Qle_shift_div_l; qlra.
    + destruct (Qlt_le_dec (c1 - c0) 1e-5) as [Hd | Hd].
      * apply Qle_shift_div_r; qlra.
      * apply Qle_shift_div_r; qlra.
Qed.

Lemma sequence_all {A : Type} (P : A -> Prop) (l : list (error + A)) :
  (forall x, In x l -> exists a, x = inr a /\ P a) ->
  exists l', sequence l = inr l' /\ length l' = length l /\ forall a, In a l' -> P a.
Proof.
  induction l as [| x l IH]; intros H.
  - exists []. repeat split. intros a [].
  - destruct (H x (or_introl eq_refl)) as (a & -> & Ha).
    destruct IH as (l' & Hs & Hlen & Hall).
    { intros y Hy. apply H. right. exact Hy. }
    exists (a :: l'). cbn [sequence]. rewrite Hs. split; [reflexivity |].
    split; [simpl; rewrite Hlen; reflexivity |].
    intros a' [<- | Ha']; [exact Ha | exact (Hall a' Ha')].
Qed.

Lemma cdf_row_length (weights : list Q) :
  weights <> [] -> length (cdf_row weights) = S (length weights).
Proof.
  intros Hne. unfold cdf_row.
  destruct weights as [| w t]; [congruence |].
  cbn [map cumsum firstn]. rewrite length_app. cbn [length map].
  rewrite cumsum_from_length, !length_map. reflexivity.
Qed.

Lemma linspace_length (a b : Q) (n : nat) : length (linspace a b n) = n.
Proof.
  unfold linspace. rewrite length_map, length_seq. reflexivity.
Qed.

(** The samples of one row: as many as quantiles, each within the bins. *)
Lemma sample_pdf_row_all (bins weights u : list Q) :
  weights <> [] -> length bins = S (length weights) ->
  exists row,
    sample_pdf_row bins weights u = inr row
    /\ length row = length u
    /\ forall s, In s row ->
         exists b0 b1, In b0 bins /\ In b1 bins /\ Qmin b0 b1 <= s /\ s <= Qmax b0 b1.
Proof.
  intros Hne Hlen. unfold sample_pdf_row.
  pose proof (cdf_row_length weights Hne) as Hcdf.
  destruct (Nat.eqb_spec (length bins) (length (cdf_row weights))) as [Heq | Hneq];
    [| congruence].
  cbn [negb].
  assert (Hcne : cdf_row weights <> []).
  { intros E. rewrite E in Hcdf. discriminate. }
  destruct (sequence_all
              (fun s => exists b0 b1, In b0 bins /\ In b1 bins
                                      /\ Qmin b0 b1 <= s /\ s <= Qmax b0 b1)
              (map (invert_cdf bins (cdf_row weights)) u)) as (row & Hs & Hl & Hall).
  - intros x Hx. apply in_map_iff in Hx. destruct Hx as (q & <- & _).
    destruct (inverted_sample_within_interval bins (cdf_row weights) q Hcne Heq)
      as (s & b0 & b1 & Hinv & Hg0 & Hg1 & Hlo & Hhi).
    exists s. split; [exact Hinv |]. exists b0, b1.
    unfold gather in Hg0, Hg1.
    destruct (0 <=? below_of (cdf_row weights) q)%Z; [| discriminate].
    destruct (0 <=? above_of (cdf_row weights) q)%Z; [| discriminate].
    repeat split; try assumption; eapply nth_error_In; eassumption.
  - exists row. rewrite (expand_same bins _ Heq). cbn [bind].
    split; [exact Hs |]. split; [| exact Hall].
    rewrite Hl, length_map. reflexivity.
Qed.

Lemma sequence_inr {A : Type} (l : list (error + A)) (l' : list A) :
  sequence l = inr l' -> l = map inr l'.
Proof.
  revert l'. induction l as [| x l IH]; intros l' H.
  - injection H as <-. reflexivity.
  - cbn [sequence] in H. destruct x as [e | a]; [discriminate |].
    destruct (sequence l) as [e | t]; [discriminate |].
    injection H as <-. cbn [map]. rewrite (IH t eq_refl). reflexivity.
Qed.

Lemma nth_error_combine {A B : Type} (l : list A) (l' : list B) (k : nat) :
  nth_error (combine l l') k
  = match nth_error l k, nth_error l' k with
    | Some a, Some b => Some (a, b)
    | _, _ => None
    end.
Proof.
  revert l' k. induction l as [| a l IH]; intros [| b l'] [| k]; cbn; try reflexivity.
  - destruct (nth_error l k); reflexivity.
  - apply IH.
Qed.

(** X13: for [B >= 1] rows of [T] bin boundaries and [T - 1 >= 1]
    non-negative weights, [sample_pdf] returns [B] rows of [n_samples]
    samples, each sample of row k between two boundaries of row k of [bins],
    in deterministic mode for [n_samples > 0] and in random mode for any
    draws. *)
Theorem sample_pdf_shape (bins weights : list (list Q)) (n_samples : nat) (det : bool)
    (rand : nat -> list Q) :
  (0 < length bins)%nat ->
  length bins = length weights ->
  (forall b w, In (b, w) (combine bins weights) ->
     w <> [] /\ length b = S (length w) /\ forall x, In x w -> 0 <= x) ->
  (det = true -> (0 < n_samples)%nat) ->
  (det = false -> forall b, (n_samples <= length (rand b))%nat) ->
  exists rows,
    sample_pdf bins weights n_samples det rand = inr rows
    /\ length rows = length bins
    /\ forall k row b,
         nth_error rows k = Some row -> nth_error bins k = Some b ->
         length row = n_samples
         /\ forall s, In s row ->
              exists b0 b1, In b0 b /\ In b1 b /\ Qmin b0 b1 <= s /\ s <= Qmax b0 b1.
Proof.
  intros _ Hbatch Hrows Hdet Hrand. unfold sample_pdf.
  assert (Hzero : det && (n_samples =? 0)%nat = false).
  { destruct det; [| reflexivity]. cbn [andb].
    apply Nat.eqb_neq. specialize (Hdet eq_refl). lia. }
  rewrite Hzero, (expand_same bins _ Hbatch). cbn [bind].
  set (u := fun b : nat =>
              if det
              then linspace (0 + 0.5 / inject_Z (Z.of_nat n_samples))
                            (1 - 0.5 / inject_Z (Z.of_nat n_samples)) n_samples
              else firstn n_samples (rand b)).
  assert (Hu : forall k, length (u k) = n_samples).
  { intros k. unfold u. destruct det.
    - apply linspace_length.
    - rewrite length_firstn. specialize (Hrand eq_refl k). lia. }
  match goal with
  | |- exists rows, sequence ?l = inr rows /\ _ =>
    set (results := l);
    destruct (sequence_all (fun _ : list Q => True) results) as (rows & Hs & Hl & _)
  end.
  - intros x Hx. apply in_map2 in Hx. destruct Hx as (k & [b w] & _ & Hbw & ->).
    cbn [fst snd].
    destruct (Hrows b w Hbw) as (Hne & Hlen & _).
    destruct (sample_pdf_row_all b w (u k) Hne Hlen) as (row & Hrow & _).
    exists row. split; [exact Hrow | exact I].
  - exists rows. split; [exact Hs |]. split.
    + unfold results in Hl.
      rewrite Hl, map2_length, length_seq, length_combine, <- Hbatch. lia.
    + intros k row b Hrow Hb.
      pose proof (sequence_inr _ _ Hs) as Hres.
      assert (Hk : nth_error results k = Some (inr row)).
      { rewrite Hres, nth_error_map, Hrow. reflexivity. }
      unfold results in Hk. rewrite nth_error_map2, nth_error_combine, Hb in Hk.
      destruct (nth_error (seq 0 (length weights)) k) as [k' |]; [| discriminate].
      destruct (nth_error weights k) as [w |] eqn:Hw; [| discriminate].
      cbn [fst snd] in Hk. injection Hk as Hk.
      change (sample_pdf_row b w (u k') = inr row) in Hk.
      assert (Hbw : In (b, w) (combine bins weights)).
      { apply (nth_error_In _ k). rewrite nth_error_combine, Hb, Hw. reflexivity. }
      destruct (Hrows b w Hbw) as (Hne & Hlen & _).
      destruct (sample_pdf_row_all b w (u k') Hne Hlen) as (row' & Hrow' & Hlrow & Hin).
      rewrite Hrow' in Hk. injection Hk as ->.
      split; [rewrite Hlrow; apply Hu | exact Hin].
Qed.

End ResamplerFacts.

Section ResamplerScene.
Local Open Scope Q_scope.

Lemma inverted_sample_within_interval_witness :
  exists s b0 b1,
    invert_cdf [0; 1; 2; 3] (cdf_row [1; 0; 1]) 0.5 = inr s
    /\ gather [0; 1; 2; 3] (below_of (cdf_row [1; 0; 1]) 0.5) = Some b0
    /\ gather [0; 1; 2; 3] (above_of (cdf_row [1; 0; 1]) 0.5) = Some b1
    /\ Qmin b0 b1 <= s /\ s <= Qmax b0 b1.
Proof.
  apply (inverted_sample_within_interval [0; 1; 2; 3] (cdf_row [1; 0; 1]) 0.5).
  - intros E. vm_compute in E. discriminate.
  - vm_compute. reflexivity.
Defined.

Lemma sample_pdf_shape_witness :
  exists rows,
    sample_pdf [[0; 1; 2; 3]] [[1; 0; 1]] 2 true (fun _ => []) = inr rows
    /\ length rows = 1%nat.
Proof.
  destruct (sample_pdf_shape [[0; 1; 2; 3]] [[1; 0; 1]] 2 true (fun _ => []))
    as (rows & Hrows & Hlen & _).
  - apply Nat.lt_0_1.
  - reflexivity.
  - intros b w [H | []]. injection H as <- <-.
    split; [discriminate |]. split; [reflexivity |].
    intros x Hx. simpl in Hx.
    repeat (destruct Hx as [<- | Hx]; [Lqa.lra |]). contradiction.
  - intros _. lia.
  - discriminate.
  - exists rows. split; [exact Hrows | exact Hlen].
Defined.

End ResamplerScene.

(** ** Further properties of the staged renderer *)

Section RenderFacts.
Local Open Scope R_scope.
Context {feat : Type} {F : Field R feat} {K : Raymarching R}.

Lemma render_loop_stuck (r : NeRFRenderer R) (rays : list Ray) (T : nat)
    (upsample_steps : Z) (bg_color : option (vec3 R)) (perturb : bool)
    (rand : nat -> nat -> nat -> R) (fuel k : nat) (log : list query) (out : Results)
    (log' : list query) (res : Results) :
  (0 < length rays)%nat ->
  render_loop r rays 0 T upsample_steps bg_color perturb rand fuel 0 k log out
  <> Some (log', inr res).
Proof.
  intros Hn. revert k log out.
  induction fuel as [| fuel IH]; intros k log out; cbn [render_loop].
  - destruct (Nat.ltb_spec 0 (length rays)); [discriminate | lia].
  - destruct (Nat.ltb_spec 0 (length rays)); [| lia].
    destruct (run r _ T upsample_steps bg_color perturb (rand k)) as [lg [e | results_]].
    + discriminate.
    + apply IH.
Qed.

(** X14: staged rendering of one or more rays with [max_ray_batch = 0]
    never returns a result: [head += max_ray_batch] leaves the loop where it
    is, however many iterations it is given. *)
Theorem staged_render_needs_positive_batch (r : NeRFRenderer R) (rays : list Ray)
    (T : nat) (upsample_steps : Z) (bg_color : option (vec3 R)) (perturb : bool)
    (rand : nat -> nat -> nat -> R) (garbage : R) (fuel : nat)
    (log : list query) (res : Results) :
  (0 < length rays)%nat ->
  render r rays true 0 T upsample_steps bg_color perturb rand garbage fuel
  <> Some (log, inr res).
Proof.
  intros Hn. unfold render.
  destruct (cuda_ray r); [discriminate |]. cbn [andb negb].
  apply render_loop_stuck. exact Hn.
Qed.

(** X15: with arguments [run] rejects ([upsample_steps] other than 0 or
    a [bg_color]), staged rendering raises AssertionError before any field
    query when there is a ray to render, and returns empty buffers without
    raising when there is none; the unstaged call raises in both cases. *)
Theorem staged_render_rejects_on_first_chunk (r : NeRFRenderer R) (rays : list Ray)
    (max_ray_batch T : nat) (upsample_steps : Z) (bg_color : option (vec3 R))
    (perturb : bool) (rand : nat -> nat -> nat -> R) (garbage : R) (fuel : nat) :
  cuda_ray r = false ->
  upsample_steps <> 0%Z \/ bg_color <> None ->
  render r rays false max_ray_batch T upsample_steps bg_color perturb rand garbage fuel
  = Some ([], inl AssertionError)
  /\ ((0 < length rays)%nat ->
      render r rays true max_ray_batch T upsample_steps bg_color perturb rand garbage
             (S fuel)
      = Some ([], inl AssertionError))
  /\ (rays = [] ->
      render r rays true max_ray_batch T upsample_steps bg_color perturb rand garbage
             fuel
      = Some ([], inr (mkResults [] (Batched []) [] [] None []))).
Proof.
  intros Hc Hbad.
  assert (Hrun : forall l rnd,
            run r l T upsample_steps bg_color perturb rnd = ([], inl AssertionError)).
  { intros l rnd. unfold run.
    destruct (Z.eqb_spec upsample_steps 0) as [-> | Hne]; cbn [negb]; [| reflexivity].
    destruct bg_color; [reflexivity |].
    destruct Hbad as [Hbad | Hbad]; congruence. }
  unfold render. rewrite Hc. cbn [andb negb]. split; [| split].
  - rewrite Hrun. reflexivity.
  - intros Hn. cbn [render_loop].
    destruct (Nat.ltb_spec 0 (length rays)); [| lia].
    rewrite Hrun. reflexivity.
  - intros ->. destruct fuel; reflexivity.
Qed.

End RenderFacts.


Section RenderScene.
Local Open Scope R_scope.

Lemma staged_render_needs_positive_batch_witness :
  render (F := scene_field) (K := scene_kernels) scene_renderer [scene_ray] true 0 2 0 None
         false (fun _ _ _ => 0) 0 5
  <> Some ([], inr (mkResults [] (Batched []) [] [] None []))
  /\ (0 < length [scene_ray])%nat.
Proof.
  split; [| simpl; lia].
  apply (staged_render_needs_positive_batch (F := scene_field) (K := scene_kernels)
           scene_renderer [scene_ray] 2 0 None false (fun _ _ _ => 0) 0 5).
  simpl. lia.
Defined.

Lemma staged_render_rejects_on_first_chunk_witness :
  render (F := scene_field) (K := scene_kernels) scene_renderer [scene_ray] true 4096 2 1
         None false (fun _ _ _ => 0) 0 1
  = Some ([], inl AssertionError)
  /\ render (F := scene_field) (K := scene_kernels) scene_renderer [] true 4096 2 1
            None false (fun _ _ _ => 0) 0 0
     = Some ([], inr (mkResults [] (Batched []) [] [] None [])).
Proof.
  assert (Hb : (1 <> 0)%Z \/ @None (vec3 R) <> None) by (left; discriminate).
  pose proof (staged_render_rejects_on_first_chunk (F := scene_field) (K := scene_kernels)
                scene_renderer [scene_ray] 4096 2 1 None false (fun _ _ _ => 0) 0 0
                eq_refl Hb) as H1.
  pose proof (staged_render_rejects_on_first_chunk (F := scene_field) (K := scene_kernels)
                scene_renderer [] 4096 2 1 None false (fun _ _ _ => 0) 0 0
                eq_refl Hb) as H2.
  destruct H1 as (_ & Hraise & _). destruct H2 as (_ & _ & Hempty).
  split; [apply Hraise; simpl; lia | apply Hempty; reflexivity].
Defined.

End RenderScene.

(** ** The range of a pixel *)

Section PixelFacts.
Local Open Scope R_scope.
Context {feat : Type} {F : Field R feat} {K : Raymarching R}.







End PixelFacts.

Section PixelScene.
Local Open Scope R_scope.


End PixelScene.

(** ** The refresh schedule *)

(** [row[indices] = vals] where an index may occur more than once: a cell
    that is written holds the value of one of its occurrences, any other cell
    is left as it was. *)
Lemma index_put_cells {A : Type} (indices : list nat) (vals row : list A) :
  length vals = length indices ->
  (forall i, In i indices -> (i < length row)%nat) ->
  exists row',
    index_put row indices vals = inr row'
    /\ length row' = length row
    /\ forall j,
         (~ In j indices -> nth_error row' j = nth_error row j)
         /\ (In j indices ->
             exists k, nth_error indices k = Some j
                       /\ nth_error row' j = nth_error vals k).
Proof.
  revert vals row. induction indices as [| i it IH]; intros vals row Hlen Hin.
  - exists row. split; [destruct vals; reflexivity |]. split; [reflexivity |].
    intros j. split; [reflexivity | intros []].
  - destruct vals as [| v vt]; [discriminate |].
    cbn [index_put].
    destruct (Nat.ltb_spec i (length row)) as [Hi | Hi].
    2:{ specialize (Hin i (or_introl eq_refl)). lia. }
    destruct (IH vt (set_nth i v row)) as (row' & Hput & Hl & Hcells).
    { cbn [length] in Hlen. lia. }
    { intros j Hj. rewrite set_nth_length by exact Hi. apply Hin. right. exact Hj. }
    exists row'. split; [exact Hput |].
    split; [rewrite Hl; apply set_nth_length; exact Hi |].
    intros j. destruct (Hcells j) as [Hout Hinj]. split.
    + intros Hnot. rewrite Hout by (intros H; apply Hnot; right; exact H).
      apply nth_error_set_nth_neq; [exact Hi |].
      intros ->. apply Hnot. left. reflexivity.
    + intros Hj. destruct (in_dec Nat.eq_dec j it) as [Hjt | Hjt].
      * destruct (Hinj Hjt) as (k & Hk & Hv). exists (S k). split; assumption.
      * destruct Hj as [<- | Hj]; [| contradiction].
        exists 0%nat. split; [reflexivity |].
        rewrite (Hout Hjt). cbn [nth_error]. apply nth_error_set_nth_eq. exact Hi.
Qed.

Lemma nonzero_from_complete (mask : list bool) (a i : nat) :
  (a <= i)%nat -> nth_error mask (i - a) = Some true ->
  In i (map fst (filter snd (combine (seq a (length mask)) mask))).
Proof.
  revert a. induction mask as [| b mask IH]; intros a Hle Hn.
  - destruct (i - a)%nat; discriminate.
  - cbn [length seq combine filter snd].
    destruct (Nat.eq_dec i a) as [-> | Hne].
    + rewrite Nat.sub_diag in Hn. cbn [nth_error] in Hn. injection Hn as ->.
      left. reflexivity.
    + assert (Hrec : In i (map fst (filter snd (combine (seq (S a) (length mask)) mask)))).
      { apply IH; [lia |].
        replace (i - a)%nat with (S (i - S a)) in Hn by lia. exact Hn. }
      destruct b; [right |]; exact Hrec.
Qed.

Lemma nonzero_complete (mask : list bool) (i : nat) :
  nth_error mask i = Some true -> In i (nonzero mask).
Proof.
  intros H. unfold nonzero. apply nonzero_from_complete; [lia |].
  rewrite Nat.sub_0_r. exact H.
Qed.

Lemma nth_error_map2_seq {A B : Type} (f : nat -> A -> B) (l : list A) (a k : nat) :
  nth_error (map2 f (seq a (length l)) l) k = option_map (f (a + k)%nat) (nth_error l k).
Proof.
  revert a k. induction l as [| x l IH]; intros a [| k]; cbn [length seq map2 nth_error];
    try reflexivity.
  - rewrite Nat.add_0_r. reflexivity.
  - rewrite IH. replace (S a + k)%nat with (a + S k)%nat by lia. reflexivity.
Qed.

Section SteadyState.
Local Open Scope Q_scope.
Context {feat : Type} {F : Field Q feat} {K : Raymarching Q}.

Lemma Qltb_true (a b : Q) : a < b -> Qltb a b = true.
Proof.
  intros H. unfold Qltb. apply negb_true_iff.
  destruct (Qle_bool b a) eqn:E; [| reflexivity].
  apply Qle_bool_iff in E. exfalso. exact (Qlt_not_le _ _ H E).
Qed.

(** With a cell above 0 in its row, the cells of a cascade are drawn without
    raising. *)
Lemma partial_cells_returns (r : NeRFRenderer Q) (dr : Draws) (cas : nat) (row : list Q) :
  (0 < grid_size r)%nat ->
  nth_error (density_grid r) cas = Some row ->
  (exists i d, nth_error row i = Some d /\ 0 < d) ->
  exists indices coords, partial_cells r dr cas = inr (indices, coords).
Proof.
  intros Hgs Hrow (i & d & Hd & Hpos). unfold partial_cells.
  unfold randint at 1. destruct (Nat.eqb_spec (grid_size r) 0) as [E | _]; [lia |].
  cbn [bind].
  unfold randint at 1. destruct (Nat.eqb_spec (grid_size r) 0) as [E | _]; [lia |].
  cbn [bind].
  unfold randint at 1. destruct (Nat.eqb_spec (grid_size r) 0) as [E | _]; [lia |].
  cbn [bind].
  unfold lookup. rewrite Hrow. cbn [bind].
  set (occ := nonzero (map (Qltb 0) row)).
  assert (Hocc : In i occ).
  { apply nonzero_complete. rewrite nth_error_map, Hd. cbn [option_map].
    rewrite (Qltb_true _ _ Hpos). reflexivity. }
  assert (Hlen : (0 < length occ)%nat) by (destruct occ; [contradiction | simpl; lia]).
  unfold randint. destruct (Nat.eqb_spec (length occ) 0) as [E | _]; [lia |].
  cbn [bind].
  rewrite (index_get_map (fun x => x mod length occ)%nat occ _ 0%nat).
  - cbn [bind]. eexists. eexists. reflexivity.
  - intros c _. apply Nat.mod_upper_bound. lia.
Qed.

(** What the partial update makes of row [cas] of the sampled grid: the
    cells drawn for the cascade hold the density sampled for one of their
    draws, the other cells are left as they were. *)
Definition partially_sampled (r : NeRFRenderer Q) (dr : Draws) (cas : nat)
    (row0 row : list Q) : Prop :=
  exists indices coords,
    partial_cells r dr cas = inr (indices, coords)
    /\ length row = length row0
    /\ forall j,
         (~ In j indices -> nth_error row j = nth_error row0 j)
         /\ (In j indices ->
             exists k c,
               nth_error indices k = Some j
               /\ nth_error coords k = Some c
               /\ nth_error row j
                  = Some (sample_cell r cas (rand_like_partial dr cas k) c)).

(** One cascade of the partial update. *)
Lemma partial_update_row (r : NeRFRenderer Q) (dr : Draws) (cas : nat)
    (tmp : list (list Q)) :
  (0 < grid_size r)%nat ->
  morton_bijection (grid_size r) ->
  grid_shape r (density_grid r) ->
  grid_shape r tmp ->
  (cas < Z.to_nat (cascade r))%nat ->
  (exists i d, cell (density_grid r) cas i = Some d /\ 0 < d) ->
  exists row0 row,
    nth_error tmp cas = Some row0
    /\ (cells <- partial_cells r dr cas ;;
        let '(indices, coords) := cells in
        let sigmas := map2 (fun k c => sample_cell r cas (rand_like_partial dr cas k) c)
                           (seq 0 (length coords)) coords in
        put_row tmp cas indices sigmas) = inr (set_nth cas row tmp)
    /\ partially_sampled r dr cas row0 row.
Proof.
  intros Hgs Hbij Hshape Htmp Hcas (i & d & Hd & Hpos).
  destruct (grid_shape_row r (density_grid r) cas Hshape Hcas) as (drow & Hdrow & Hdlen).
  destruct (grid_shape_row r tmp cas Htmp Hcas) as (row0 & Hrow0 & Hlen0).
  unfold cell in Hd. rewrite Hdrow in Hd.
  destruct (partial_cells_returns r dr cas drow Hgs Hdrow) as (indices & coords & Hcells).
  { exists i, d. split; assumption. }
  destruct (partial_cells_inr r dr cas indices coords Hcells)
    as (rnd & occ & Hi & Hc & Lrnd & Locc & Hcube & Hoccupied).
  set (sigmas := map2 (fun k c => sample_cell r cas (rand_like_partial dr cas k) c)
                      (seq 0 (length coords)) coords).
  destruct (index_put_cells indices sigmas row0) as (row & Hput & Hlen & Hrows).
  { unfold sigmas. rewrite map2_length, length_seq, Nat.min_id.
    rewrite Hi, Hc, !length_app, !length_map. reflexivity. }
  { intros j Hj. rewrite Hlen0. rewrite Hi in Hj. apply in_app_or in Hj.
    destruct Hj as [Hj | Hj].
    - apply in_map_iff in Hj. destruct Hj as (c & <- & Hcin).
      apply Hbij. apply Hcube. exact Hcin.
    - destruct (Hoccupied j Hj) as (d' & Hd' & _).
      unfold cell in Hd'. rewrite Hdrow in Hd'.
      rewrite <- Hdlen. apply nth_error_Some. congruence. }
  exists row0, row. split; [exact Hrow0 |]. split.
  - rewrite Hcells. cbn [bind]. unfold put_row, lookup. rewrite Hrow0. cbn [bind].
    fold sigmas. rewrite Hput. reflexivity.
  - exists indices, coords. split; [exact Hcells |]. split; [exact Hlen |].
    intros j. destruct (Hrows j) as [Hout Hin]. split; [exact Hout |].
    intros Hj. destruct (Hin Hj) as (k & Hk & Hv).
    assert (Hkc : exists c, nth_error coords k = Some c).
    { destruct (nth_error coords k) as [c |] eqn:E; [exists c; reflexivity |].
      apply nth_error_None in E.
      assert (Hkl : (k < length indices)%nat) by (apply nth_error_Some; congruence).
      rewrite Hi, length_app, length_map in Hkl.
      rewrite Hc, length_app, length_map in E. lia. }
    destruct Hkc as (c & Hkc).
    exists k, c. split; [exact Hk |]. split; [exact Hkc |].
    rewrite Hv. unfold sigmas. rewrite nth_error_map2_seq, Hkc. reflexivity.
Qed.

(** The cascades of the partial update: each row of the sampled grid is
    written once. *)
Lemma partial_update_rows (r : NeRFRenderer Q) (dr : Draws) (L : list nat) :
  (0 < grid_size r)%nat ->
  morton_bijection (grid_size r) ->
  grid_shape r (density_grid r) ->
  NoDup L ->
  (forall cas, In cas L ->
     (cas < Z.to_nat (cascade r))%nat
     /\ exists i d, cell (density_grid r) cas i = Some d /\ 0 < d) ->
  forall tmp0, grid_shape r tmp0 ->
  exists tmp,
    foldM (fun tmp_grid cas =>
             cells <- partial_cells r dr cas ;;
             let '(indices, coords) := cells in
             let sigmas := map2 (fun k c =>
                                   sample_cell r cas (rand_like_partial dr cas k) c)
                                (seq 0 (length coords)) coords in
             put_row tmp_grid cas indices sigmas) L tmp0 = inr tmp
    /\ grid_shape r tmp
    /\ (forall cas, ~ In cas L -> nth_error tmp cas = nth_error tmp0 cas)
    /\ (forall cas, In cas L ->
          exists row0 row,
            nth_error tmp0 cas = Some row0 /\ nth_error tmp cas = Some row
            /\ partially_sampled r dr cas row0 row).
Proof.
  intros Hgs Hbij Hshape. induction L as [| cas L IH]; intros Hnodup HL tmp0 Htmp0.
  - exists tmp0. split; [reflexivity |]. split; [exact Htmp0 |].
    split; [reflexivity | intros cas []].
  - inversion Hnodup as [| ? ? Hnotin Hnodup']; subst.
    destruct (HL cas (or_introl eq_refl)) as (Hcas & Hocc).
    destruct (partial_update_row r dr cas tmp0 Hgs Hbij Hshape Htmp0 Hcas Hocc)
      as (row0 & row & Hrow0 & Hbody & Hsampled).
    assert (Hlt : (cas < length tmp0)%nat) by (apply nth_error_Some; congruence).
    assert (Hlen : length row = length row0).
    { destruct Hsampled as (? & ? & _ & Hl & _). exact Hl. }
    assert (Htmp1 : grid_shape r (set_nth cas row tmp0)).
    { unfold grid_shape. rewrite (set_row_shape tmp0 cas row0 row Hrow0 Hlen).
      exact Htmp0. }
    destruct (IH Hnodup' (fun c Hc => HL c (or_intror Hc)) _ Htmp1)
      as (tmp & Hfold & Hshape' & Hout & Hin).
    exists tmp. split; [| split; [exact Hshape' | split]].
    + cbn [foldM]. cbv beta zeta in Hbody |- *. rewrite Hbody. cbn [bind]. exact Hfold.
    + intros cas' Hnot. rewrite Hout by (intros H; apply Hnot; right; exact H).
      apply nth_error_set_nth_neq; [exact Hlt |].
      intros ->. apply Hnot. left. reflexivity.
    + intros cas' [<- | Hcas'].
      * exists row0, row. split; [exact Hrow0 |]. split; [| exact Hsampled].
        rewrite (Hout cas Hnotin). apply nth_error_set_nth_eq. exact Hlt.
      * destruct (Hin cas' Hcas') as (row0' & row' & Hr0 & Hr & Hs).
        exists row0', row'. split; [| split; [exact Hr | exact Hs]].
        rewrite <- Hr0. symmetry. apply nth_error_set_nth_neq; [exact Hlt |].
        intros ->. contradiction.
Qed.

(** A refresh during the warm-up. *)
Lemma warm_up_refresh (r : NeRFRenderer Q) (decay : Q) (S : nat) (dr : Draws) :
  cuda_ray r = true -> (iter_density r < 16)%nat -> (0 < S)%nat ->
  grid_shape r (density_grid r) -> morton_bijection (grid_size r) ->
  exists tmp r',
    update_extra_state r decay S dr = inr r'
    /\ density_grid r' = map2 (ema_row decay) (density_grid r) tmp
    /\ iter_density r' = Datatypes.S (iter_density r)
    /\ grid_shape r tmp
    /\ forall cas i, (cas < Z.to_nat (cascade r))%nat -> (i < grid_size r ^ 3)%nat ->
         cell tmp cas i
         = Some (sample_cell r cas (rand_like_full dr cas (morton3D_invert i))
                             (morton3D_invert i)).
Proof.
  intros Hc Hit HS Hshape Hbij.
  assert (Hshape0 : grid_shape r (map (map (fun _ : Q => - (1))) (density_grid r))).
  { unfold grid_shape in *. rewrite <- Hshape, map_map.
    apply map_ext. intros row. apply length_map. }
  destruct (full_update_sweeps r dr S _ Hbij HS Hshape0) as (tmp & Hfull & Htmp & Hcells).
  assert (Hsampled : sampled_grid r dr S = inr tmp).
  { unfold sampled_grid. destruct (Nat.ltb_spec (iter_density r) 16); [exact Hfull | lia]. }
  exists tmp. eexists. split.
  - unfold update_extra_state. rewrite Hc, Hsampled. reflexivity.
  - split; [reflexivity |]. split; [reflexivity |]. split; [exact Htmp |].
    intros cas i Hcas Hi.
    destruct (proj2 Hbij i Hi) as [Hcube Hinv].
    rewrite <- Hinv at 1. exact (Hcells cas _ Hcas Hcube).
Qed.

(** A refresh of the steady state, when every cascade holds a cell above 0. *)
Lemma steady_refresh (r : NeRFRenderer Q) (decay : Q) (S : nat) (dr : Draws) :
  cuda_ray r = true -> (16 <= iter_density r)%nat -> (0 < grid_size r)%nat ->
  grid_shape r (density_grid r) -> morton_bijection (grid_size r) ->
  (forall cas, (cas < Z.to_nat (cascade r))%nat ->
     exists i d, cell (density_grid r) cas i = Some d /\ 0 < d) ->
  exists tmp r',
    update_extra_state r decay S dr = inr r'
    /\ density_grid r' = map2 (ema_row decay) (density_grid r) tmp
    /\ iter_density r' = Datatypes.S (iter_density r)
    /\ forall cas, (cas < Z.to_nat (cascade r))%nat ->
         exists row0 row,
           nth_error (map (map (fun _ : Q => - (1))) (density_grid r)) cas = Some row0
           /\ nth_error tmp cas = Some row
           /\ partially_sampled r dr cas row0 row.
Proof.
  intros Hc Hit Hgs Hshape Hbij Hocc.
  assert (Hshape0 : grid_shape r (map (map (fun _ : Q => - (1))) (density_grid r))).
  { unfold grid_shape in *. rewrite <- Hshape, map_map.
    apply map_ext. intros row. apply length_map. }
  destruct (partial_update_rows r dr (seq 0 (Z.to_nat (cascade r))) Hgs Hbij Hshape
              (seq_NoDup _ _)) with (tmp0 := map (map (fun _ : Q => - (1))) (density_grid r))
    as (tmp & Hfold & _ & _ & Hrows).
  { intros cas Hcas. apply in_seq in Hcas.
    split; [lia | apply Hocc; lia]. }
  { exact Hshape0. }
  assert (Hsampled : sampled_grid r dr S = inr tmp).
  { unfold sampled_grid. destruct (Nat.ltb_spec (iter_density r) 16); [lia | exact Hfold]. }
  exists tmp. eexists. split.
  - unfold update_extra_state. rewrite Hc, Hsampled. reflexivity.
  - split; [reflexivity |]. split; [reflexivity |].
    intros cas Hcas. apply Hrows. apply in_seq. lia.
Qed.

(** X17: the schedule of [update_extra_state] from a fresh extra state.
    The calls that return are counted by [iter_density].  A call that follows
    fewer than 16 of them returns and assigns every cell of every cascade of
    the sampled grid a fresh sample (the full sweep).  A call that follows 16
    or more draws, per cascade, [grid_size ** 3 // 4] cells at random
    coordinates and as many among the cells with density above 0; when every
    cascade holds such a cell it returns, a cell that was drawn holds the
    density sampled for one of its draws and every other cell of the sampled
    grid is -1, so that the ema update leaves it as it was.  No series of
    refresh and marking calls brings the full sweep back;
    [reset_extra_state] does. *)
Theorem refresh_schedule
    (r0 : NeRFRenderer Q) (calls : list call) (r : NeRFRenderer Q) :
  cuda_ray r0 = true ->
  iter_density r0 = 0%nat ->
  (2 <= grid_size r0)%nat ->
  grid_shape r0 (density_grid r0) ->
  morton_bijection (grid_size r0) ->
  performs calls r0 = inr r ->
  iter_density r = refresh_count calls
  /\ ((refresh_count calls < 16)%nat ->
      forall decay S dr, (0 < S)%nat ->
      exists tmp r',
        update_extra_state r decay S dr = inr r'
        /\ density_grid r' = map2 (ema_row decay) (density_grid r) tmp
        /\ iter_density r' = Datatypes.S (refresh_count calls)
        /\ forall cas i, (cas < Z.to_nat (cascade r))%nat -> (i < grid_size r ^ 3)%nat ->
             cell tmp cas i
             = Some (sample_cell r cas (rand_like_full dr cas (morton3D_invert i))
                                 (morton3D_invert i)))
  /\ ((16 <= refresh_count calls)%nat ->
      forall decay S dr,
      (forall cas, (cas < Z.to_nat (cascade r))%nat ->
         exists i d, cell (density_grid r) cas i = Some d /\ 0 < d) ->
      exists tmp r',
        update_extra_state r decay S dr = inr r'
        /\ density_grid r' = map2 (ema_row decay) (density_grid r) tmp
        /\ iter_density r' = Datatypes.S (refresh_count calls)
        /\ forall cas, (cas < Z.to_nat (cascade r))%nat ->
             exists rnd occ,
               partial_cells r dr cas
               = inr (map morton3D rnd ++ occ, rnd ++ map morton3D_invert occ)
               /\ length rnd = (grid_size r ^ 3 / 4)%nat
               /\ length occ = (grid_size r ^ 3 / 4)%nat
               /\ (forall c, In c rnd -> in_cube (grid_size r) c)
               /\ (forall i, In i occ ->
                     exists d, cell (density_grid r) cas i = Some d /\ 0 < d)
               /\ forall i, (i < grid_size r ^ 3)%nat ->
                    (~ In i (map morton3D rnd ++ occ) -> cell tmp cas i = Some (- (1)))
                    /\ (In i (map morton3D rnd ++ occ) ->
                        exists k c,
                          nth_error (map morton3D rnd ++ occ) k = Some i
                          /\ nth_error (rnd ++ map morton3D_invert occ) k = Some c
                          /\ cell tmp cas i
                             = Some (sample_cell r cas (rand_like_partial dr cas k) c)))
  /\ ((16 <= refresh_count calls)%nat ->
      forall calls' r', performs calls' r = inr r' -> (16 <= iter_density r')%nat)
  /\ iter_density (reset_extra_state r) = 0%nat.
Proof.
  intros Hc0 Hit0 Hgs0 Hshape0 Hbij0 Hcalls.
  destruct (performs_inr _ _ _ Hc0 Hcalls) as (Hc & Hgs & Hcas & Hsh & Hit).
  rewrite Hit0 in Hit. simpl in Hit.
  assert (Hshape : grid_shape r (density_grid r)).
  { unfold grid_shape in *. rewrite Hgs, Hcas, <- Hshape0. exact Hsh. }
  assert (Hbij : morton_bijection (grid_size r)) by (rewrite Hgs; exact Hbij0).
  split; [exact Hit |]. split; [| split; [| split]].
  - intros Hk decay S dr HS.
    destruct (warm_up_refresh r decay S dr Hc ltac:(lia) HS Hshape Hbij)
      as (tmp & r' & Hu & Hg & Hi & _ & Hcells).
    exists tmp, r'. split; [exact Hu |]. split; [exact Hg |].
    split; [rewrite Hi, Hit; reflexivity | exact Hcells].
  - intros Hk decay S dr Hocc.
    destruct (steady_refresh r decay S dr Hc ltac:(lia) ltac:(lia) Hshape Hbij Hocc)
      as (tmp & r' & Hu & Hg & Hi & Hrows).
    exists tmp, r'. split; [exact Hu |]. split; [exact Hg |].
    split; [rewrite Hi, Hit; reflexivity |].
    intros cas Hcas'.
    destruct (Hrows cas Hcas')
      as (row0 & row & Hrow0 & Hrow & indices & coords & Hcells & Hlen & Hput).
    destruct (partial_cells_inr r dr cas indices coords Hcells)
      as (rnd & occ & -> & -> & Lrnd & Locc & Hcube & Hoccupied).
    exists rnd, occ. split; [exact Hcells |]. split; [exact Lrnd |].
    split; [exact Locc |]. split; [exact Hcube |]. split; [exact Hoccupied |].
    intros i Hi'.
    destruct (grid_shape_row r (density_grid r) cas Hshape Hcas') as (drow & Hdrow & Hdlen).
    rewrite nth_error_map, Hdrow in Hrow0. cbn [option_map] in Hrow0.
    injection Hrow0 as <-.
    unfold cell. rewrite Hrow.
    destruct (Hput i) as [Hout Hin]. split.
    + intros Hnot. rewrite (Hout Hnot), nth_error_map.
      destruct (nth_error drow i) eqn:E; [reflexivity |].
      apply nth_error_None in E. lia.
    + exact Hin.
  - intros Hk calls' r' Hcalls'.
    destruct (performs_inr _ _ _ Hc Hcalls') as (_ & _ & _ & _ & Hit').
    lia.
  - unfold reset_extra_state. rewrite Hc. reflexivity.
Qed.

(** *** A scene without density *)

Lemma sample_cell_zero (r : NeRFRenderer Q) (cas : nat) (noise : vec3 Q)
    (c : nat * nat * nat) :
  (forall p, fst (density p) == 0) -> sample_cell r cas noise c == 0.
Proof.
  intros Hzero. unfold sample_cell. destruct noise as [[n0 n1] n2].
  rewrite Hzero. apply Qmult_0_l.
Qed.

(** No cell of the grid is above 0. *)
Definition unoccupied (grid : list (list Q)) : Prop :=
  forall cas i d, cell grid cas i = Some d -> d <= 0.

(** A refresh of the warm-up on a field without density leaves the grid
    unoccupied. *)
Lemma warm_up_refresh_unoccupied (r : NeRFRenderer Q) (decay : Q) (S : nat) (dr : Draws) :
  cuda_ray r = true -> (iter_density r < 16)%nat -> (0 < S)%nat ->
  grid_shape r (density_grid r) -> morton_bijection (grid_size r) ->
  unoccupied (density_grid r) ->
  (forall p, fst (density p) == 0) ->
  exists r',
    update_extra_state r decay S dr = inr r'
    /\ cuda_ray r' = true
    /\ iter_density r' = Datatypes.S (iter_density r)
    /\ grid_size r' = grid_size r /\ cascade r' = cascade r
    /\ grid_shape r' (density_grid r')
    /\ unoccupied (density_grid r').
Proof.
  intros Hc Hit HS Hshape Hbij Hun Hzero.
  destruct (warm_up_refresh r decay S dr Hc Hit HS Hshape Hbij)
    as (tmp & r' & Hu & Hg & Hi & Htmp & Hcells).
  destruct (update_extra_state_inr _ _ _ _ _ Hc Hu) as (_ & _ & _ & _ & Hc' & Hgs & Hcas).
  exists r'. split; [exact Hu |]. split; [exact Hc' |]. split; [exact Hi |].
  split; [exact Hgs |]. split; [exact Hcas |]. split.
  - unfold grid_shape in *. rewrite Hgs, Hcas, Hg, <- Hshape.
    apply map2_rows_shape.
    + intros a b Hab. apply ema_row_length. exact Hab.
    + rewrite Hshape, Htmp. reflexivity.
  - intros cas i v. unfold cell. rewrite Hg, nth_error_map2.
    destruct (nth_error (density_grid r) cas) as [row |] eqn:Hrow; [| discriminate].
    destruct (nth_error tmp cas) as [trow |] eqn:Htrow; [| discriminate].
    rewrite ema_row_cell.
    destruct (nth_error row i) as [o |] eqn:Ho; [| discriminate].
    destruct (nth_error trow i) as [t |] eqn:Ht; [| discriminate].
    intros Hv. injection Hv as <-.
    assert (Hole : o <= 0).
    { apply (Hun cas i). unfold cell. rewrite Hrow. exact Ho. }
    assert (Hcas' : (cas < Z.to_nat (cascade r))%nat).
    { assert (Hl : (cas < length (density_grid r))%nat)
        by (apply nth_error_Some; congruence).
      unfold grid_shape in Hshape.
      rewrite <- (length_map (@length Q)), Hshape, repeat_length in Hl. exact Hl. }
    assert (Hi' : (i < grid_size r ^ 3)%nat).
    { destruct (grid_shape_row r (density_grid r) cas Hshape Hcas') as (row' & Hr' & Hl).
      rewrite Hrow in Hr'. injection Hr' as <-.
      rewrite <- Hl. apply nth_error_Some. congruence. }
    assert (Htle : t <= 0).
    { pose proof (Hcells cas i Hcas' Hi') as Hcell. unfold cell in Hcell.
      rewrite Htrow, Ht in Hcell. injection Hcell as ->.
      rewrite (sample_cell_zero _ _ _ _ Hzero). apply Qle_refl. }
    destruct (Qle_bool 0 o && Qle_bool 0 t) eqn:E; [| exact Hole].
    apply andb_true_iff in E. destruct E as [E _]. apply Qle_bool_iff in E.
    apply Q.max_lub; [| exact Htle].
    assert (Ho0 : o == 0) by (apply Qle_antisym; assumption).
    rewrite Ho0, Qmult_0_l. apply Qle_refl.
Qed.

(** A refresh of the steady state on an unoccupied grid. *)
Lemma steady_refresh_unoccupied (r : NeRFRenderer Q) (decay : Q) (S : nat) (dr : Draws) :
  cuda_ray r = true -> (16 <= iter_density r)%nat -> (0 < cascade r)%Z ->
  grid_shape r (density_grid r) -> unoccupied (density_grid r) ->
  update_extra_state r decay S dr = inl RuntimeError.
Proof.
  intros Hc Hit Hcas Hshape Hun.
  destruct (grid_shape_row r (density_grid r) 0 Hshape) as (row & Hrow & _); [lia |].
  unfold update_extra_state, sampled_grid. rewrite Hc. cbn [negb].
  destruct (Nat.ltb_spec (iter_density r) 16) as [Hlt | _]; [lia |].
  unfold partial_update.
  destruct (Z.to_nat (cascade r)) as [| n] eqn:Hn; [lia |].
  cbn [seq foldM].
  assert (Hcells : partial_cells r dr 0 = inl RuntimeError).
  { unfold partial_cells, randint at 1.
    destruct (grid_size r =? 0)%nat; [reflexivity |]. cbn [bind].
    unfold randint at 1. destruct (grid_size r =? 0)%nat; [reflexivity |]. cbn [bind].
    unfold randint at 1. destruct (grid_size r =? 0)%nat; [reflexivity |]. cbn [bind].
    unfold lookup. rewrite Hrow. cbn [bind].
    rewrite nonzero_none.
    - reflexivity.
    - intros b Hb. apply in_map_iff in Hb. destruct Hb as (d & <- & Hd).
      unfold Qltb. apply negb_false_iff. apply Qle_bool_iff.
      apply In_nth_error in Hd. destruct Hd as (i & Hd).
      apply (Hun 0%nat i). unfold cell. rewrite Hrow. exact Hd. }
  rewrite Hcells. reflexivity.
Qed.

(** C8 (at its failing input).  A renderer in its fresh extra state, with
    at least one cascade and no cell above 0, and a field whose density is 0
    everywhere: the first 16 calls of [update_extra_state] return, each after
    a full sweep; the 17th call, whatever its arguments, samples no cell and
    raises RuntimeError where it draws among the cells with density above 0,
    of which there is none. *)
Theorem refresh_raises_where_nothing_is_occupied
    (r0 : NeRFRenderer Q) (calls : list (Q * nat * Draws)) :
  cuda_ray r0 = true ->
  iter_density r0 = 0%nat ->
  (0 < cascade r0)%Z ->
  (2 <= grid_size r0)%nat ->
  grid_shape r0 (density_grid r0) ->
  morton_bijection (grid_size r0) ->
  unoccupied (density_grid r0) ->
  (forall p, fst (density p) == 0) ->
  length calls = 16%nat ->
  (forall c, In c calls -> (0 < snd (fst c))%nat) ->
  exists r16,
    refreshes calls r0 = inr r16
    /\ iter_density r16 = 16%nat
    /\ forall decay S dr, update_extra_state r16 decay S dr = inl RuntimeError.
Proof.
  intros Hc0 Hit0 Hcas0 _ Hshape0 Hbij0 Hun0 Hzero Hlen HS.
  assert (Hwarm : forall calls r,
            cuda_ray r = true -> (iter_density r + length calls <= 16)%nat ->
            grid_shape r (density_grid r) -> morton_bijection (grid_size r) ->
            unoccupied (density_grid r) ->
            (forall c, In c calls -> (0 < snd (fst c))%nat) ->
            exists r',
              refreshes calls r = inr r'
              /\ cuda_ray r' = true
              /\ iter_density r' = (iter_density r + length calls)%nat
              /\ cascade r' = cascade r
              /\ grid_shape r' (density_grid r')
              /\ unoccupied (density_grid r')).
  { clear - Hzero. intros calls. unfold refreshes.
    induction calls as [| [[decay S] dr] calls IH]; intros r Hc Hit Hshape Hbij Hun HS.
    - exists r. cbn [foldM length]. rewrite Nat.add_0_r. repeat split; assumption.
    - cbn [length] in Hit.
      destruct (warm_up_refresh_unoccupied r decay S dr Hc ltac:(lia)
                  (HS _ (or_introl eq_refl)) Hshape Hbij Hun Hzero)
        as (r1 & Hu & Hc1 & Hit1 & Hgs1 & Hcas1 & Hshape1 & Hun1).
      destruct (IH r1 Hc1 ltac:(lia) Hshape1 ltac:(rewrite Hgs1; exact Hbij) Hun1
                  (fun c Hin => HS c (or_intror Hin)))
        as (r' & Hf & Hc' & Hit' & Hcas' & Hshape' & Hun').
      exists r'. cbn [foldM fst snd]. rewrite Hu. cbn [bind].
      split; [exact Hf |]. split; [exact Hc' |].
      split; [cbn [length]; lia |]. split; [congruence |].
      split; assumption. }
  destruct (Hwarm calls r0 Hc0 ltac:(lia) Hshape0 Hbij0 Hun0 HS)
    as (r16 & Hf & Hc & Hit & Hcas & Hshape & Hun).
  exists r16. split; [exact Hf |]. split; [lia |].
  intros decay S dr.
  apply steady_refresh_unoccupied; try assumption; [lia | congruence].
Qed.

End SteadyState.

Section ScheduleScene.
Local Open Scope Q_scope.

(** The small grid after a warm-up of 16 refreshes with decay 1: the cells
    with [0 <= x] are occupied. *)
Definition grid_steady : NeRFRenderer Q :=
  with_extra_state grid_renderer [[0; 3; 0; 3; 0; 3; 0; 3]]
                   [0%nat] (Some (12 # 8)) 16 (repeat (0, 0)%Z 16) 0%Z 0.

Definition warm_up : list call := repeat (Refresh 1 1 grid_draws) 16.

Lemma grid_warm_up :
  performs (F := grid_field) (K := grid_kernels) warm_up grid_renderer = inr grid_steady.
Proof. vm_compute. reflexivity. Qed.

(** The 17th refresh of the small grid draws the cells 2, 1, 1 and 3: cell
    0 of the sampled grid is left at -1 and cell 2, which lies in the empty
    half, holds the density 0 sampled for it. *)
Lemma refresh_schedule_witness :
  iter_density grid_steady = 16%nat
  /\ exists tmp r',
       update_extra_state (F := grid_field) (K := grid_kernels) grid_steady 1 1 grid_draws
       = inr r'
       /\ density_grid r' = map2 (ema_row 1) (density_grid grid_steady) tmp
       /\ iter_density r' = 17%nat
       /\ cell tmp 0 0 = Some (- (1))
       /\ exists v, cell tmp 0 2 = Some v /\ v == 0.
Proof.
  assert (Hgs : (2 <= grid_size grid_renderer)%nat) by apply le_n.
  destruct (refresh_schedule (F := grid_field) (K := grid_kernels) grid_renderer warm_up
              grid_steady eq_refl eq_refl Hgs eq_refl grid_morton_bijection grid_warm_up)
    as (Hit & _ & Hsteady & _).
  split; [exact Hit |].
  assert (Hcount : (16 <= refresh_count warm_up)%nat) by (vm_compute; lia).
  assert (Hocc : forall cas, (cas < Z.to_nat (cascade grid_steady))%nat ->
                   exists i d, cell (density_grid grid_steady) cas i = Some d /\ 0 < d).
  { intros cas Hcas. exists 1%nat, 3.
    assert (Hc : cas = 0%nat) by (vm_compute in Hcas; lia).
    subst cas. split; reflexivity. }
  destruct (Hsteady Hcount 1 1%nat grid_draws Hocc) as (tmp & r' & Hu & Hg & Hi & Hrows).
  exists tmp, r'. split; [exact Hu |]. split; [exact Hg |]. split; [exact Hi |].
  assert (Hcas : (0 < Z.to_nat (cascade grid_steady))%nat) by (vm_compute; lia).
  destruct (Hrows 0%nat Hcas) as (rnd & occ & Hcells & _ & _ & _ & _ & Hput).
  assert (Hdrawn : partial_cells (K := grid_kernels) grid_steady grid_draws 0
                   = inr ([2; 1; 1; 3]%nat,
                          [(0, 1, 0); (1, 0, 0); (1, 0, 0); (1, 1, 0)]%nat)).
  { vm_compute. reflexivity. }
  rewrite Hdrawn in Hcells.
  pose proof (f_equal (fun x : error + list nat * list (nat * nat * nat) =>
                         match x with inr cells => fst cells | inl _ => [] end) Hcells)
    as Hindices.
  pose proof (f_equal (fun x : error + list nat * list (nat * nat * nat) =>
                         match x with inr cells => snd cells | inl _ => [] end) Hcells)
    as Hcoords.
  cbv beta iota in Hindices, Hcoords. cbn [fst snd] in Hindices, Hcoords.
  rewrite <- Hindices, <- Hcoords in Hput.
  split.
  - apply (Hput 0%nat); [vm_compute; lia |].
    intros [H | [H | [H | [H | []]]]]; discriminate H.
  - destruct (proj2 (Hput 2%nat ltac:(vm_compute; lia))) as (k & c & Hk & Hc & Hv).
    { left. reflexivity. }
    exists (sample_cell (F := grid_field) grid_steady 0
                        (rand_like_partial grid_draws 0 k) c).
    split; [exact Hv |].
    destruct k as [| [| [| [| k]]]]; cbn [nth_error] in Hk, Hc;
      try discriminate Hk.
    + injection Hc as <-. vm_compute. reflexivity.
    + destruct k; discriminate Hk.
Defined.

(** A field without density. *)
Definition grid_void_field : Field Q unit := {|
  density := fun _ => (0, tt);
  color := fun _ _ _ _ _ => (0, 0, 0);
  clip := fun _ _ => []
|}.

Lemma grid_unoccupied : unoccupied (density_grid grid_renderer).
Proof.
  intros cas i d H. unfold cell in H. cbn [density_grid grid_renderer] in H.
  destruct cas as [| cas]; cbn [nth_error] in H; [| destruct cas; discriminate H].
  do 8 (destruct i as [| i]; [injection H as <-; apply Qle_refl |]).
  cbn [nth_error] in H. destruct i; discriminate H.
Qed.

Lemma refresh_raises_where_nothing_is_occupied_witness :
  exists r16,
    refreshes (F := grid_void_field) (K := grid_kernels)
              (repeat (0.95, 1%nat, grid_draws) 16) grid_renderer = inr r16
    /\ iter_density r16 = 16%nat
    /\ update_extra_state (F := grid_void_field) (K := grid_kernels) r16 0.95 1 grid_draws
       = inl RuntimeError.
Proof.
  assert (Hcas : (0 < cascade grid_renderer)%Z) by reflexivity.
  assert (Hgs : (2 <= grid_size grid_renderer)%nat) by apply le_n.
  assert (Hzero : forall p, fst (density (Field := grid_void_field) p) == 0).
  { intros p. reflexivity. }
  assert (HS : forall c, In c (repeat (0.95, 1%nat, grid_draws) 16) ->
                 (0 < snd (fst c))%nat).
  { intros c Hc. apply repeat_spec in Hc. subst c. apply Nat.lt_0_1. }
  destruct (refresh_raises_where_nothing_is_occupied
              (F := grid_void_field) (K := grid_kernels) grid_renderer
              (repeat (0.95, 1%nat, grid_draws) 16)
              eq_refl eq_refl Hcas Hgs eq_refl grid_morton_bijection grid_unoccupied
              Hzero eq_refl HS)
    as (r16 & Hf & Hit & Hraise).
  exists r16. split; [exact Hf |]. split; [exact Hit |]. apply Hraise.
Defined.

End ScheduleScene.
